(** * stream-axios: the SSE parsers and the stream controller of [core/stream.ts]

    A shallow embedding of [parseSSEEvent], [parseSSEChunk], [createSSEParser]
    and [createStreamRequest], and the properties of them that the design
    document states.

    JavaScript strings are sequences of UTF-16 code units; they are modelled
    as lists of code units, so that [split], [trim], [startsWith], [slice]
    and [parseInt] can be written out the way ECMAScript defines them. *)

From Stdlib Require Import List ZArith NArith Bool Lia String Ascii.
Import ListNotations.
Open Scope list_scope.

(** ** JavaScript strings *)

Module JS.

Definition jsstring : Type := list N.

(** A string literal of the source, as the list of its code units. *)
Definition lit (s : string) : jsstring :=
  map N_of_ascii (list_ascii_of_string s).
Arguments lit s%_string.

(** ["\n"] and ["\n\n"], the two separators the source splits on. *)
Definition nl : jsstring := [10%N].
Definition nn : jsstring := [10%N; 10%N].

(** A string is falsy exactly when it is empty ([Boolean(s)], [!s], [s || d]). *)
Definition truthy (s : jsstring) : bool :=
  match s with
  | [] => false
  | _ :: _ => true
  end.

(** [s.startsWith(p)] *)
Fixpoint startsWith (s p : jsstring) {struct p} : bool :=
  match p, s with
  | [], _ => true
  | _ :: _, [] => false
  | a :: p', b :: s' => N.eqb a b && startsWith s' p'
  end.

(** [s.slice(n)] for [n >= 0] *)
Definition slice (n : nat) (s : jsstring) : jsstring := skipn n s.

(** [l.join(sep)] *)
Fixpoint join (sep : jsstring) (l : list jsstring) : jsstring :=
  match l with
  | [] => []
  | [x] => x
  | x :: l' => x ++ sep ++ join sep l'
  end.

(** The first match of [sep] in [s], scanning from the left: the text before
    it and the text after it. *)
Fixpoint cut (sep s : jsstring) : option (jsstring * jsstring) :=
  if startsWith s sep then Some ([], skipn (List.length sep) s)
  else match s with
       | [] => None
       | c :: s' =>
           match cut sep s' with
           | Some (a, b) => Some (c :: a, b)
           | None => None
           end
       end.

(** [s.includes(sep)] *)
Definition includes (s sep : jsstring) : bool :=
  match cut sep s with
  | Some _ => true
  | None => false
  end.

(** [s.split(sep)] for a non-empty separator: the matches are taken from the
    left and do not overlap; the text after the last match is the last
    element. Every match consumes at least one code unit, so [length s]
    rounds are enough. *)
Fixpoint split_from (fuel : nat) (s sep : jsstring) : list jsstring :=
  match cut sep s with
  | None => [s]
  | Some (a, b) =>
      match fuel with
      | O => [s]
      | S fuel' => a :: split_from fuel' b sep
      end
  end.

Definition split (s sep : jsstring) : list jsstring :=
  split_from (List.length s) s sep.

(** WhiteSpace and LineTerminator code units, the ones [trim] strips and
    [parseInt] skips. *)
Definition isWhiteSpace (c : N) : bool :=
  ((9 <=? c) && (c <=? 13) || (c =? 32) || (c =? 160) || (c =? 5760)
   || (8192 <=? c) && (c <=? 8202) || (c =? 8232) || (c =? 8233)
   || (c =? 8239) || (c =? 8287) || (c =? 12288) || (c =? 65279))%N.

Fixpoint trimStart (s : jsstring) : jsstring :=
  match s with
  | [] => []
  | c :: s' => if isWhiteSpace c then trimStart s' else s
  end.

Definition trimEnd (s : jsstring) : jsstring := rev (trimStart (rev s)).

(** [s.trim()] *)
Definition trim (s : jsstring) : jsstring := trimEnd (trimStart s).

Definition isDigit (c : N) : bool := ((48 <=? c) && (c <=? 57))%N.

Fixpoint digitsPrefix (s : jsstring) : jsstring :=
  match s with
  | [] => []
  | c :: s' => if isDigit c then c :: digitsPrefix s' else []
  end.

Definition digitsValue (ds : jsstring) : Z :=
  fold_left (fun acc c => (10 * acc + Z.of_N (c - 48))%Z) ds 0%Z.

(** [parseInt(s, 10)]: leading white space is skipped, one sign is accepted,
    then the longest run of decimal digits is read and whatever follows it is
    ignored. [None] is NaN. The result is the mathematical value of the
    digits (a JavaScript Number rounds it above 2^53, and keeps a sign on
    zero; neither is modelled). *)
Definition parseInt (s : jsstring) : option Z :=
  let s1 := trimStart s in
  let sign := if startsWith s1 (lit "-") then (-1)%Z else 1%Z in
  let s2 :=
    if startsWith s1 (lit "-") || startsWith s1 (lit "+")
    then slice 1 s1 else s1 in
  match digitsPrefix s2 with
  | [] => None
  | ds => Some (sign * digitsValue ds)%Z
  end.

End JS.
Import JS.

(** ** The frame parser, [parseSSEEvent] *)

Record SSEEvent : Type := mkEvent {
  event : option jsstring;
  data : option jsstring;
  id : option jsstring;
  retry : option Z
}.

Definition emptyEvent : SSEEvent :=
  {| event := None; data := None; id := None; retry := None |}.

(** The two locals of the loop: [result] and [dataLines]. *)
Record LoopState : Type := mkLoop {
  result : SSEEvent;
  dataLines : list jsstring
}.

Definition loopStart : LoopState :=
  {| result := emptyEvent; dataLines := [] |}.

Definition set_event (v : jsstring) (e : SSEEvent) : SSEEvent :=
  {| event := Some v; data := data e; id := id e; retry := retry e |}.
Definition set_data (v : jsstring) (e : SSEEvent) : SSEEvent :=
  {| event := event e; data := Some v; id := id e; retry := retry e |}.
Definition set_id (v : jsstring) (e : SSEEvent) : SSEEvent :=
  {| event := event e; data := data e; id := Some v; retry := retry e |}.
Definition set_retry (v : Z) (e : SSEEvent) : SSEEvent :=
  {| event := event e; data := data e; id := id e; retry := Some v |}.

(** What a [data:] line pushes on [dataLines]:
    [content.startsWith(" ") ? content.slice(1) : content]
    with [content = line.slice(5)]. *)
Definition dataContent (line : jsstring) : jsstring :=
  let content := slice 5 line in
  if startsWith content (lit " ") then slice 1 content else content.

(** The body of [for (const line of lines)]. *)
Definition handleLine (st : LoopState) (line : jsstring) : LoopState :=
  if startsWith line (lit "data:") then
    {| result := result st; dataLines := dataLines st ++ [dataContent line] |}
  else if startsWith line (lit "event:") then
    {| result := set_event (trim (slice 6 line)) (result st);
       dataLines := dataLines st |}
  else if startsWith line (lit "id:") then
    {| result := set_id (trim (slice 3 line)) (result st);
       dataLines := dataLines st |}
  else if startsWith line (lit "retry:") then
    match parseInt (trim (slice 6 line)) with
    | Some n => {| result := set_retry n (result st);
                   dataLines := dataLines st |}
    | None => st
    end
  else st.

(** [Object.keys(result).length > 0] *)
Definition hasKeys (e : SSEEvent) : bool :=
  match event e, data e, id e, retry e with
  | None, None, None, None => false
  | _, _, _, _ => true
  end.

(** What follows the loop: the joined data lines, then the null test. *)
Definition finishEvent (st : LoopState) : option SSEEvent :=
  let r :=
    if (0 <? List.length (dataLines st))%nat
    then set_data (join nl (dataLines st)) (result st)
    else result st in
  if hasKeys r then Some r else None.

Definition parseLines (lines : list jsstring) : option SSEEvent :=
  finishEvent (fold_left handleLine lines loopStart).

Definition parseSSEEvent (eventBlock : jsstring) : option SSEEvent :=
  parseLines (split eventBlock nl).

(** ** The stateless splitter, [parseSSEChunk]

    The callback [onMessage] is modelled by the list of the arguments it was
    called with, in the order of the calls. *)

Definition chunkStep (calls : list jsstring) (eventBlock : jsstring)
  : list jsstring :=
  match parseSSEEvent eventBlock with
  | Some parsed =>
      match data parsed with
      | Some d => if truthy d then calls ++ [d] else calls
      | None => calls
      end
  | None => calls
  end.

Definition parseSSEChunk (sseText : jsstring) : list jsstring :=
  let events := filter truthy (split sseText nn) in
  fold_left chunkStep events [].

(** ** The stateful parser, [createSSEParser]

    The closure owns [buffer]; one call of the returned function takes the
    buffer and the chunk and gives the new buffer and the events passed to
    [onMessage] during this call, in order. *)

Definition parserStep (calls : list SSEEvent) (eventBlock : jsstring)
  : list SSEEvent :=
  if negb (truthy (trim eventBlock)) then calls
  else match parseSSEEvent eventBlock with
       | Some parsed => calls ++ [parsed]
       | None => calls
       end.

Definition parserCall (buffer chunk : jsstring) : jsstring * list SSEEvent :=
  let buffer1 := buffer ++ chunk in
  let parts := split buffer1 nn in
  (* [parts.pop() || ""]: the last element, [""] when there is none *)
  let buffer2 := last parts [] in
  let parts' := removelast parts in
  (buffer2, fold_left parserStep parts' []).

(** A parser instance: its buffer and everything it has emitted so far. *)
Record Parser : Type := mkParser {
  buffer : jsstring;
  emitted : list SSEEvent
}.

Definition createSSEParser : Parser := {| buffer := []; emitted := [] |}.

Definition feed (p : Parser) (chunk : jsstring) : Parser :=
  let '(b, evs) := parserCall (buffer p) chunk in
  {| buffer := b; emitted := emitted p ++ evs |}.

Definition feedAll (p : Parser) (chunks : list jsstring) : Parser :=
  fold_left feed chunks p.


(** ** The stream controller, [createStreamRequest]

    The controller is asynchronous: [makeRequest] and [readStreamChunk]
    suspend at their [await]s and are resumed by the HTTP client, the timer
    and the reader, and the caller may call the cancel function or fire the
    external signal in between. The model is a state machine: the state
    holds the variables of the closure and the [await] the task is suspended
    at, an input is one thing the outside does, and a step runs the code up
    to the next [await]. Every call the code makes to the outside is
    appended to a log. *)

(** [TextDecoder("utf-8")] with [{stream: true}]: a decoder carries the bytes
    of an unfinished character from one call of [decode] to the next. *)
Class TextDecoder : Type := {
  decoderState : Type;
  newDecoder : decoderState;
  decode : decoderState -> list Byte.byte -> decoderState * jsstring
}.

Module Stream.

(** What the [catch] blocks read of a thrown value; [None] is [undefined]. *)
Record JsError : Type := mkError {
  name : option jsstring;
  code : option jsstring;
  message : option jsstring
}.

(** The [getReader] property of a value. *)
Inductive GetReader : Type :=
| Missing      (* absent, or falsy *)
| NotCallable  (* truthy, and [typeof] is not ["function"] *)
| Callable.    (* a function *)

(** A response as [makeRequest] reads it: the fields [data] and [body] are
    [None] when absent or falsy, and otherwise give the [getReader] property
    of the value they hold; [self] is the [getReader] property of the
    response itself. *)
Record Response : Type := mkResponse {
  res_data : option GetReader;
  res_body : option GetReader;
  res_self : GetReader
}.

(** [retry] and [retryDelay] are numbers or absent; [signal] is absent, or
    says whether the external signal was already aborted at the call. *)
Record StreamOptions : Type := mkOptions {
  opt_retry : option Z;
  opt_retryDelay : option Z;
  opt_signal : option bool
}.

(** The three callbacks are optional: which of them the caller passed. *)
Record Config : Type := mkConfig {
  options : StreamOptions;
  onChunk : bool;
  onComplete : bool;
  onError : bool
}.

Inductive Effect : Type :=
| EInstance                       (* [instance({...})]: a request is issued *)
| ESetTimeout (ms : Z)            (* [setTimeout(resolve, retryDelay)] *)
| EGetReader                      (* [readableStream.getReader()] *)
| EReleaseLock                    (* [reader.releaseLock()] *)
| EAbort                          (* [controller.abort()] *)
| EAddListener                    (* [signal.addEventListener("abort", _)] *)
| ERemoveListener                 (* [signal.removeEventListener("abort", _)] *)
| EOnChunk (chunk : jsstring)
| EOnComplete
| EOnError (msg : jsstring)
| EConsoleError (label : jsstring).

Inductive Input : Type :=
| Fulfilled (r : Response)            (* the promise of [instance] fulfils *)
| Rejected (e : JsError)              (* the promise of [instance] rejects *)
| TimerFired                          (* the retry timer fires *)
| ReadChunk (value : list Byte.byte)  (* [read()] gives [{done: false, value}] *)
| ReadDone                            (* [read()] gives [{done: true}] *)
| ReadFailed (e : JsError)            (* [read()] rejects *)
| Cancel (releaseLockThrows : bool)   (* the caller calls the cancel function *)
| SignalAbort.                        (* the external signal fires *)

Section Controller.
Context {TD : TextDecoder}.

(** The [await] the task is suspended at. *)
Inductive Phase : Type :=
| AwaitResponse
| AwaitTimer
| AwaitRead (d : decoderState)
| Finished.

Record State : Type := mkState {
  aborted : bool;        (* [controller.signal.aborted] *)
  reader : bool;         (* [reader] is not null *)
  listener : bool;       (* [externalSignalHandler] is not null *)
  attempts : Z;
  phase : Phase;
  log : list Effect
}.

Definition emit (e : Effect) (s : State) : State :=
  {| aborted := aborted s; reader := reader s; listener := listener s;
     attempts := attempts s; phase := phase s; log := log s ++ [e] |}.

Definition emitIf (b : bool) (e : Effect) (s : State) : State :=
  if b then emit e s else s.

Definition setPhase (p : Phase) (s : State) : State :=
  {| aborted := aborted s; reader := reader s; listener := listener s;
     attempts := attempts s; phase := p; log := log s |}.

Definition setAborted (s : State) : State :=
  {| aborted := true; reader := reader s; listener := listener s;
     attempts := attempts s; phase := phase s; log := log s |}.

Definition setReader (s : State) : State :=
  {| aborted := aborted s; reader := true; listener := listener s;
     attempts := attempts s; phase := phase s; log := log s |}.

Definition setListener (b : bool) (s : State) : State :=
  {| aborted := aborted s; reader := reader s; listener := b;
     attempts := attempts s; phase := phase s; log := log s |}.

Definition incrAttempts (s : State) : State :=
  {| aborted := aborted s; reader := reader s; listener := listener s;
     attempts := (attempts s + 1)%Z; phase := phase s; log := log s |}.

(** [x || d] on a number that may be absent: [undefined], [0] and [NaN] are
    falsy. *)
Definition numberOr (x : option Z) (d : Z) : Z :=
  match x with
  | Some v => if (v =? 0)%Z then d else v
  | None => d
  end.

Definition maxRetries (cfg : Config) : Z := numberOr (opt_retry (options cfg)) 0.
Definition retryDelay (cfg : Config) : Z :=
  numberOr (opt_retryDelay (options cfg)) 1000.

Definition cancelledMsg : jsstring := lit "Stream request cancelled manually".
Definition notStreamMsg : jsstring :=
  lit "Browser does not support stream response, API did not return stream, or response was transformed incorrectly".
Definition requestFailedMsg : jsstring := lit "Stream request failed".

(** The error [makeRequest] throws when it finds no stream. *)
Definition notStreamError : JsError :=
  {| name := Some (lit "Error"); code := None; message := Some notStreamMsg |}.

Definition strEq (a b : jsstring) : bool :=
  if list_eq_dec N.eq_dec a b then true else false.

Definition fieldIs (field : option jsstring) (s : jsstring) : bool :=
  match field with
  | Some v => strEq v s
  | None => false
  end.

(** [cleanup()] *)
Definition cleanup (cfg : Config) (s : State) : State :=
  match opt_signal (options cfg) with
  | Some _ =>
      if listener s then setListener false (emit ERemoveListener s) else s
  | None => s
  end.

(** [response.data || response.body || (response.getReader ? response : null)] *)
Definition readableStream (r : Response) : option GetReader :=
  match res_data r with
  | Some g => Some g
  | None =>
      match res_body r with
      | Some g => Some g
      | None =>
          match res_self r with
          | Missing => None
          | g => Some g
          end
      end
  end.

(** The negation of
    [!readableStream || typeof readableStream.getReader !== "function"]. *)
Definition isStream (rs : option GetReader) : bool :=
  match rs with
  | Some Callable => true
  | _ => false
  end.

(** [readStreamChunk()] up to its [await reader.read()]. *)
Definition readStreamChunk (d : decoderState) (s : State) : State :=
  if reader s then setPhase (AwaitRead d) s else setPhase Finished s.

(** [makeRequest()] up to its [await instance(...)]. *)
Definition makeRequest (s : State) : State :=
  if aborted s then setPhase Finished s
  else setPhase AwaitResponse (emit EInstance s).

(** The [catch] block of [makeRequest]. *)
Definition catchRequest (cfg : Config) (err : JsError) (s : State) : State :=
  if fieldIs (name err) (lit "CanceledError") || fieldIs (code err) (lit "ERR_CANCELED")
     || aborted s
  then setPhase Finished s
  else if (attempts s <? maxRetries cfg)%Z then
    setPhase AwaitTimer (emit (ESetTimeout (retryDelay cfg)) (incrAttempts s))
  else
    let errorMsg :=
      match message err with
      | Some m => if truthy m then m else requestFailedMsg
      | None => requestFailedMsg
      end in
    setPhase Finished
      (emit (EConsoleError (lit "Stream request failed:"))
         (emitIf (onError cfg) (EOnError errorMsg) s)).

(** [makeRequest] from the point where [instance(...)] has given [r]. *)
Definition afterResponse (cfg : Config) (r : Response) (s : State) : State :=
  if isStream (readableStream r) then
    readStreamChunk newDecoder (setReader (emit EGetReader s))
  else catchRequest cfg notStreamError s.

(** [`Read stream failed: ${err.message}`] *)
Definition readFailedMsg (err : JsError) : jsstring :=
  lit "Read stream failed: " ++
  match message err with
  | Some m => m
  | None => lit "undefined"
  end.

(** The [catch] block of [readStreamChunk]. *)
Definition catchRead (cfg : Config) (err : JsError) (s : State) : State :=
  let s1 := cleanup cfg s in
  if fieldIs (name err) (lit "AbortError") then setPhase Finished s1
  else setPhase Finished (emitIf (onError cfg) (EOnError (readFailedMsg err)) s1).

(** [cancelRequest()]; when [releaseLock] throws, the [catch] logs and the
    call of [onError] is skipped. *)
Definition cancelRequest (cfg : Config) (releaseLockThrows : bool) (s : State)
  : State :=
  let s1 := emit EAbort (setAborted (cleanup cfg s)) in
  if reader s1 && releaseLockThrows then
    emit (EConsoleError (lit "Failed to cancel stream request:")) s1
  else
    let s2 := emitIf (reader s1) EReleaseLock s1 in
    emitIf (onError cfg) (EOnError cancelledMsg) s2.

(** One input, run up to the next [await]. An input that the current
    [await] is not waiting for leaves the state as it is. *)
Definition step (cfg : Config) (s : State) (i : Input) : State :=
  match i, phase s with
  | Fulfilled r, AwaitResponse => afterResponse cfg r s
  | Rejected e, AwaitResponse => catchRequest cfg e s
  | TimerFired, AwaitTimer => makeRequest s
  | ReadChunk value, AwaitRead d =>
      let '(d', chunk) := decode d value in
      readStreamChunk d' (emitIf (onChunk cfg) (EOnChunk chunk) s)
  | ReadDone, AwaitRead _ =>
      setPhase Finished (emitIf (onComplete cfg) EOnComplete (cleanup cfg s))
  | ReadFailed e, AwaitRead _ => catchRead cfg e s
  | Cancel t, _ => cancelRequest cfg t s
  | SignalAbort, _ =>
      if listener s then emit EAbort (setAborted s) else s
  | _, _ => s
  end.

(** The synchronous part of a call of [stream]: the external signal is
    looked at, then [makeRequest()] starts. *)
Definition start (cfg : Config) : State :=
  let s0 := {| aborted := false; reader := false; listener := false;
               attempts := 0; phase := Finished; log := [] |} in
  let s1 :=
    match opt_signal (options cfg) with
    | Some true => emit EAbort (setAborted s0)
    | Some false => emit EAddListener (setListener true s0)
    | None => s0
    end in
  makeRequest s1.

Definition run (cfg : Config) (s : State) (inputs : list Input) : State :=
  fold_left (step cfg) inputs s.

(** The whole session: the call of [stream], then the inputs in order. *)
Definition session (cfg : Config) (inputs : list Input) : State :=
  run cfg (start cfg) inputs.


End Controller.

Definition isOnError (e : Effect) : bool :=
  match e with EOnError _ => true | _ => false end.
Definition isOnChunk (e : Effect) : bool :=
  match e with EOnChunk _ => true | _ => false end.
Definition isOnComplete (e : Effect) : bool :=
  match e with EOnComplete => true | _ => false end.
Definition isInstance (e : Effect) : bool :=
  match e with EInstance => true | _ => false end.

Definition count (p : Effect -> bool) (l : list Effect) : nat :=
  List.length (filter p l).

End Stream.

(** ** The controller with callbacks that throw

    In the controller above a call of a callback returns, and what a
    [catch] block gets is a value whose properties can be read. Here a call
    of a callback returns or throws, and a thrown value may be [null] or
    [undefined], on which [err.name] throws a [TypeError].

    [readStreamChunk] awaits itself after every chunk (l.374), so while a
    read is pending there is one suspended call per chunk read so far, each
    inside its own [try]. What escapes the [catch] of one call is caught by
    the call that awaits it; what escapes the outermost call, or
    [makeRequest], rejects a promise that nobody awaits. The suspended calls
    resume in consecutive microtasks, before a response, a timer or a read
    is delivered: one step runs them all. *)

Module Throwing.
Import Stream.

(** A thrown value, as a [catch] block meets it. Reading a property of
    [null] or [undefined] throws a [TypeError], whose message is the
    engine's; any other value is what its properties give. *)
Inductive Thrown : Type :=
| Nullish (engineMessage : jsstring)
| Value (e : JsError).

(** What a call of a callback does. *)
Inductive Outcome : Type :=
| Returns
| Throws (v : Thrown).

Inductive Occurrence : Type :=
| Fulfils (r : Response)              (* the promise of [instance] fulfils *)
| Rejects (v : Thrown)                (* the promise of [instance] rejects *)
| TimerFires                          (* the retry timer fires *)
| ReadGives (value : list Byte.byte)  (* [read()] gives [{done: false, value}] *)
| ReadEnds                            (* [read()] gives [{done: true}] *)
| ReadRejects (v : Thrown)            (* [read()] rejects *)
| Cancels (releaseLockThrows : bool)  (* the caller calls the cancel function *)
| SignalAborts.                       (* the external signal fires *)

(** One thing the outside does, with what the callbacks called on its
    account do, in the order of the calls; a call beyond the end of the list
    returns. *)
Definition Happening : Type := (Occurrence * list Outcome)%type.

(** The [TypeError] of [err.name] on [null] or [undefined]. *)
Definition typeError (m : jsstring) : JsError :=
  {| name := Some (lit "TypeError"); code := None; message := Some m |}.

Definition next (outs : list Outcome) : Outcome * list Outcome :=
  match outs with
  | [] => (Returns, [])
  | o :: outs' => (o, outs')
  end.

Section Controller.
Context {TD : TextDecoder}.

Record Task : Type := mkTask {
  base : Stream.State;      (* the variables of the closure, the [await], the log *)
  frames : nat;             (* calls suspended at [await readStreamChunk()] *)
  unhandled : list Thrown   (* rejections of the promises nobody awaits *)
}.

Definition setBase (s : Stream.State) (t : Task) : Task :=
  {| base := s; frames := frames t; unhandled := unhandled t |}.

(** [if (cb) cb(...)] *)
Definition call (passed : bool) (e : Effect) (outs : list Outcome)
  (s : Stream.State) : Stream.State * Outcome * list Outcome :=
  if passed then (emit e s, fst (next outs), snd (next outs))
  else (s, Returns, outs).

(** The [catch] block of one call of [readStreamChunk]: the call returns
    ([None]), or a value escapes it. *)
Definition catchRead (cfg : Config) (v : Thrown) (outs : list Outcome)
  (s : Stream.State) : Stream.State * option Thrown * list Outcome :=
  let s1 := cleanup cfg s in
  match v with
  | Nullish m => (s1, Some (Value (typeError m)), outs)
  | Value err =>
      if fieldIs (name err) (lit "AbortError") then (s1, None, outs)
      else
        match call (onError cfg) (EOnError (readFailedMsg err)) outs s1 with
        | (s2, Returns, outs') => (s2, None, outs')
        | (s2, Throws w, outs') => (s2, Some w, outs')
        end
  end.

(** A value thrown in the innermost call, with [enclosing] calls suspended
    around it: every call that catches lets the next one return or passes a
    value on to it. What is left at the end escapes the outermost call. *)
Fixpoint unwind (cfg : Config) (enclosing : nat) (v : Thrown)
  (outs : list Outcome) (s : Stream.State) : Stream.State * option Thrown :=
  match catchRead cfg v outs s with
  | (s1, None, _) => (s1, None)
  | (s1, Some w, outs') =>
      match enclosing with
      | 0 => (s1, Some w)
      | S k => unwind cfg k w outs' s1
      end
  end.

(** The chain of calls of [readStreamChunk] has settled. *)
Definition settle (t : Task) (r : Stream.State * option Thrown) : Task :=
  {| base := setPhase Finished (fst r);
     frames := 0;
     unhandled := unhandled t ++ match snd r with
                                 | Some w => [w]
                                 | None => []
                                 end |}.

(** The [catch] block of [makeRequest]. *)
Definition catchRequest (cfg : Config) (v : Thrown) (outs : list Outcome)
  (t : Task) : Task :=
  let s := base t in
  match v with
  | Nullish m =>
      {| base := setPhase Finished s; frames := frames t;
         unhandled := unhandled t ++ [Value (typeError m)] |}
  | Value err =>
      if fieldIs (name err) (lit "CanceledError")
         || fieldIs (code err) (lit "ERR_CANCELED")
         || aborted s
      then setBase (setPhase Finished s) t
      else if (attempts s <? maxRetries cfg)%Z then
        setBase (setPhase AwaitTimer
                   (emit (ESetTimeout (retryDelay cfg)) (incrAttempts s))) t
      else
        let errorMsg :=
          match message err with
          | Some m => if truthy m then m else requestFailedMsg
          | None => requestFailedMsg
          end in
        match call (onError cfg) (EOnError errorMsg) outs s with
        | (s1, Returns, _) =>
            setBase (setPhase Finished
                       (emit (EConsoleError (lit "Stream request failed:")) s1)) t
        | (s1, Throws w, _) =>
            {| base := setPhase Finished s1; frames := frames t;
               unhandled := unhandled t ++ [w] |}
        end
  end.

(** [cancelRequest()]: what [releaseLock] or [onError] throws is caught and
    logged. *)
Definition cancelRequest (cfg : Config) (releaseLockThrows : bool)
  (outs : list Outcome) (s : Stream.State) : Stream.State :=
  let s1 := emit EAbort (setAborted (cleanup cfg s)) in
  if reader s1 && releaseLockThrows then
    emit (EConsoleError (lit "Failed to cancel stream request:")) s1
  else
    let s2 := emitIf (reader s1) EReleaseLock s1 in
    match call (onError cfg) (EOnError cancelledMsg) outs s2 with
    | (s3, Returns, _) => s3
    | (s3, Throws _, _) =>
        emit (EConsoleError (lit "Failed to cancel stream request:")) s3
    end.

(** One happening, run until every call is suspended or has settled. *)
Definition step (cfg : Config) (t : Task) (h : Happening) : Task :=
  let s := base t in
  let outs := snd h in
  match fst h, phase s with
  | Fulfils r, AwaitResponse =>
      if isStream (readableStream r) then
        {| base := readStreamChunk newDecoder (setReader (emit EGetReader s));
           frames := 0; unhandled := unhandled t |}
      else catchRequest cfg (Value notStreamError) outs t
  | Rejects v, AwaitResponse => catchRequest cfg v outs t
  | TimerFires, AwaitTimer => setBase (makeRequest s) t
  | ReadGives value, AwaitRead d =>
      let '(d', chunk) := decode d value in
      match call (onChunk cfg) (EOnChunk chunk) outs s with
      | (s1, Returns, _) =>
          {| base := readStreamChunk d' s1; frames := S (frames t);
             unhandled := unhandled t |}
      | (s1, Throws v, outs') => settle t (unwind cfg (frames t) v outs' s1)
      end
  | ReadEnds, AwaitRead _ =>
      match call (onComplete cfg) EOnComplete outs (cleanup cfg s) with
      | (s1, Returns, _) => settle t (s1, None)
      | (s1, Throws v, outs') => settle t (unwind cfg (frames t) v outs' s1)
      end
  | ReadRejects v, AwaitRead _ => settle t (unwind cfg (frames t) v outs s)
  | Cancels b, _ => setBase (cancelRequest cfg b outs s) t
  | SignalAborts, _ =>
      setBase (if listener s then emit EAbort (setAborted s) else s) t
  | _, _ => t
  end.

Definition start (cfg : Config) : Task :=
  {| base := Stream.start cfg; frames := 0; unhandled := [] |}.

Definition run (cfg : Config) (t : Task) (hs : list Happening) : Task :=
  fold_left (step cfg) hs t.

Definition session (cfg : Config) (hs : list Happening) : Task :=
  run cfg (start cfg) hs.

End Controller.

End Throwing.

(** ** The notions the stated properties are written with *)

(** *** Texts made of [data:] lines and blank-line separators *)

(** A [data:] line: the prefix, then anything but a line break. *)
Definition isDataLine (l : jsstring) : bool :=
  startsWith l (lit "data:") && negb (existsb (N.eqb 10) l).

(** A block: one [data:] line or more. *)
Definition isDataBlock (b : list jsstring) : bool :=
  match b with
  | [] => false
  | _ :: _ => forallb isDataLine b
  end.

Definition blockText (b : list jsstring) : jsstring := join nl b.

(** The blocks with a blank line between them, and one after the last block
    when the text is [closed]. *)
Definition sseText (blocks : list (list jsstring)) (closed : bool) : jsstring :=
  join nn (map blockText blocks) ++ (if closed then nn else []).

(** A line that the frame parser takes for a [data:] line. *)
Definition isDataPrefixed (l : jsstring) : bool := startsWith l (lit "data:").

(** What follows the five code units of the prefix, less one leading space
    when there is one. *)
Definition dataPayload (line : jsstring) : jsstring :=
  match skipn 5 line with
  | c :: r => if (c =? 32)%N then r else c :: r
  | [] => []
  end.

(** The joined data string of a block. *)
Definition joinedData (b : list jsstring) : jsstring :=
  join nl (map dataPayload b).

(** *** Fields of the result of the frame parser *)

Definition dataField (o : option SSEEvent) : option jsstring :=
  match o with
  | Some e => data e
  | None => None
  end.

Definition retryField (o : option SSEEvent) : option Z :=
  match o with
  | Some e => retry e
  | None => None
  end.

(** *** The content of a [retry:] line *)

Definition dropSign (s : jsstring) : jsstring :=
  match s with
  | c :: r => if (c =? 45)%N || (c =? 43)%N then r else s
  | [] => []
  end.

(** Numeric content: once trimmed, a decimal numeral and nothing else (one
    sign, then digits only). *)
Definition numericContent (v : jsstring) : bool :=
  let ds := dropSign (trim v) in
  truthy ds && forallb isDigit ds.

(** The content starts, once trimmed, with a decimal digit (after one
    optional sign). *)
Definition leadingDigit (v : jsstring) : bool :=
  match dropSign (trim v) with
  | c :: _ => isDigit c
  | [] => false
  end.

(** *** The stateful parser, read as parsing the trimmed segment *)

Definition parserStepTrimmed (calls : list SSEEvent) (eventBlock : jsstring)
  : list SSEEvent :=
  let trimmed := trim eventBlock in
  if negb (truthy trimmed) then calls
  else match parseSSEEvent trimmed with
       | Some parsed => calls ++ [parsed]
       | None => calls
       end.

Definition parserCallTrimmed (buffer chunk : jsstring)
  : jsstring * list SSEEvent :=
  let parts := split (buffer ++ chunk) nn in
  (last parts [], fold_left parserStepTrimmed (removelast parts) []).

(** The events of the closed segments: a segment that is blank once trimmed
    gives none, any other one is parsed as it stands. *)
Definition segmentEvents (segment : jsstring) : list SSEEvent :=
  if truthy (trim segment) then
    match parseSSEEvent segment with
    | Some e => [e]
    | None => []
    end
  else [].

(** *** The text after the last occurrence of a separator *)

(** [Some] of what follows the last place where [sep] occurs in [s]
    ([s.lastIndexOf(sep)]), [None] when it occurs nowhere. *)
Fixpoint afterLast (sep s : jsstring) : option jsstring :=
  match s with
  | [] => None
  | _ :: s' =>
      match afterLast sep s' with
      | Some r => Some r
      | None =>
          if startsWith s sep then Some (skipn (List.length sep) s) else None
      end
  end.

Definition suffixAfterLast (sep s : jsstring) : jsstring :=
  match afterLast sep s with
  | Some r => r
  | None => s
  end.

(** *** Sessions of the stream controller *)

(** Neither [data], nor [body], nor the response itself has a [getReader]
    function. *)
Definition noReader (r : Stream.Response) : bool :=
  match Stream.res_data r, Stream.res_body r, Stream.res_self r with
  | Some Stream.Callable, _, _ => false
  | _, Some Stream.Callable, _ => false
  | _, _, Stream.Callable => false
  | _, _, _ => true
  end.

(** An error that is not a cancellation of the request. *)
Definition notCancellation (e : Stream.JsError) : bool :=
  negb (Stream.fieldIs (Stream.name e) (lit "CanceledError"))
  && negb (Stream.fieldIs (Stream.code e) (lit "ERR_CANCELED")).


(** A retry round of a request that got a response [r]: the response, then
    the timer. *)
Definition retryRound (r : Stream.Response) : list Stream.Input :=
  [Stream.Fulfilled r; Stream.TimerFired].

(** No chunk has arrived. *)
Definition noChunk (i : Stream.Input) : bool :=
  match i with
  | Stream.ReadChunk _ => false
  | _ => true
  end.


(** The calls of the three callbacks are absent from a piece of the log. *)
Definition silent (l : list Stream.Effect) : bool :=
  forallb (fun e => negb (Stream.isOnError e || Stream.isOnChunk e
                          || Stream.isOnComplete e)) l.

(** A decoder for streams of ASCII text: every byte is one code unit and
    nothing is carried over. *)
Definition asciiDecoder : TextDecoder := {|
  decoderState := unit;
  newDecoder := tt;
  decode := fun _ bytes => (tt, map (fun b => N_of_ascii (ascii_of_byte b)) bytes)
|}.

(** *** Shapes of texts, for the proofs *)

(** The text is empty or starts with a code unit that is not white space. *)
Definition startsClean (s : jsstring) : bool :=
  match s with
  | [] => true
  | c :: _ => negb (isWhiteSpace c)
  end.

(** No line break in the text. *)
Definition noBreak (l : jsstring) : bool := negb (existsb (N.eqb 10) l).

(** Every line break is followed by a code unit that is not a line break. *)
Fixpoint tidy (s : jsstring) : bool :=
  match s with
  | [] => true
  | c :: s' =>
      negb ((10 =? c)%N && match s' with
                           | [] => true
                           | c' :: _ => (10 =? c')%N
                           end)
      && tidy s'
  end.

(** *** Sample sessions *)

Definition networkError : Stream.JsError :=
  {| Stream.name := Some (lit "AxiosError");
     Stream.code := Some (lit "ERR_NETWORK");
     Stream.message := Some (lit "Network Error") |}.

Definition abortError : Stream.JsError :=
  {| Stream.name := Some (lit "AbortError");
     Stream.code := None;
     Stream.message := Some (lit "The operation was aborted.") |}.

(** The rejection of a read that was pending when its reader was released. *)
Definition releasedReaderError : Stream.JsError :=
  {| Stream.name := Some (lit "TypeError");
     Stream.code := None;
     Stream.message := Some (lit "Releasing Default reader") |}.

Definition canceledError : Stream.JsError :=
  {| Stream.name := Some (lit "CanceledError");
     Stream.code := Some (lit "ERR_CANCELED");
     Stream.message := Some (lit "canceled") |}.

(** What a callback of the caller throws. *)
Definition callbackError : Stream.JsError :=
  {| Stream.name := Some (lit "Error");
     Stream.code := None;
     Stream.message := Some (lit "boom") |}.

(** The message of the [TypeError] of a property read on [null]. *)
Definition nullMessage : jsstring :=
  lit "Cannot read properties of null (reading 'name')".

(** A response whose [data] is a stream, and one that has no stream. *)
Definition streamResponse : Stream.Response :=
  {| Stream.res_data := Some Stream.Callable; Stream.res_body := None;
     Stream.res_self := Stream.Missing |}.

Definition bufferedResponse : Stream.Response :=
  {| Stream.res_data := Some Stream.Missing; Stream.res_body := None;
     Stream.res_self := Stream.Missing |}.

(** All three callbacks passed, no external signal. *)
Definition withOptions (retry retryDelay : option Z) : Stream.Config :=
  {| Stream.options :=
       {| Stream.opt_retry := retry; Stream.opt_retryDelay := retryDelay;
          Stream.opt_signal := None |};
     Stream.onChunk := true; Stream.onComplete := true;
     Stream.onError := true |}.

(** All three callbacks passed, an external signal that is or is not
    aborted at the call, one retry. *)
Definition withSignal (alreadyAborted : bool) : Stream.Config :=
  {| Stream.options :=
       {| Stream.opt_retry := Some 1%Z; Stream.opt_retryDelay := None;
          Stream.opt_signal := Some alreadyAborted |};
     Stream.onChunk := true; Stream.onComplete := true;
     Stream.onError := true |}.

(** ** Notions for the further properties *)

(** *** Lines of a block *)

Definition isEventLine (l : jsstring) : bool := startsWith l (lit "event:").
Definition isIdLine (l : jsstring) : bool := startsWith l (lit "id:").
Definition isRetryLine (l : jsstring) : bool := startsWith l (lit "retry:").

(** A line that starts with none of the four prefixes: a comment, an
    unknown field, an empty line. *)
Definition isIgnoredLine (l : jsstring) : bool :=
  negb (isDataPrefixed l || isEventLine l || isIdLine l || isRetryLine l).

(** The value a [retry:] line sets, when it sets one. *)
Definition retryValue (l : jsstring) : option Z :=
  if isRetryLine l then parseInt (trim (slice 6 l)) else None.

(** A line that leaves a key in [result] or an element in [dataLines]. *)
Definition setsField (l : jsstring) : bool :=
  isDataPrefixed l || isEventLine l || isIdLine l
  || match retryValue l with Some _ => true | None => false end.

(** The last element, if any. *)
Definition lastOpt {A : Type} (l : list A) : option A :=
  last (map Some l) None.

Definition eventField (o : option SSEEvent) : option jsstring :=
  match o with
  | Some e => event e
  | None => None
  end.

Definition idField (o : option SSEEvent) : option jsstring :=
  match o with
  | Some e => id e
  | None => None
  end.

(** The values of the [retry:] lines that [parseInt] accepts, in order. *)
Definition retryValues (lines : list jsstring) : list Z :=
  flat_map (fun l => match retryValue l with Some n => [n] | None => [] end)
    lines.

(** The loop has left a key or a data line. *)
Definition anyField (st : LoopState) : bool :=
  hasKeys (result st) || (0 <? List.length (dataLines st))%nat.

(** What a consumer that keeps the non-empty data of each event gets. *)
Definition payloads (events : list SSEEvent) : list jsstring :=
  flat_map (fun e => match data e with
                     | Some d => if truthy d then [d] else []
                     | None => []
                     end) events.

(** *** Effects and inputs of the controller *)

Definition isSetTimeout (e : Stream.Effect) : bool :=
  match e with Stream.ESetTimeout _ => true | _ => false end.
Definition isAbort (e : Stream.Effect) : bool :=
  match e with Stream.EAbort => true | _ => false end.
Definition isAddListener (e : Stream.Effect) : bool :=
  match e with Stream.EAddListener => true | _ => false end.
Definition isRemoveListener (e : Stream.Effect) : bool :=
  match e with Stream.ERemoveListener => true | _ => false end.

Definition notCancel (i : Stream.Input) : bool :=
  match i with
  | Stream.Cancel _ => false
  | _ => true
  end.

(** The rejection of a cancelled request, as the [catch] of [makeRequest]
    recognises it. *)
Definition isCancellation (e : Stream.JsError) : bool :=
  Stream.fieldIs (Stream.name e) (lit "CanceledError")
  || Stream.fieldIs (Stream.code e) (lit "ERR_CANCELED").

(** What can still happen once the task has ended: the effects of the
    cancel function and of the external signal. *)
Definition afterEnd (e : Stream.Effect) : bool :=
  match e with
  | Stream.EAbort | Stream.ERemoveListener | Stream.EReleaseLock => true
  | Stream.EConsoleError _ => true
  | Stream.EOnError m => Stream.strEq m Stream.cancelledMsg
  | _ => false
  end.

(** [err.message || "Stream request failed"] *)
Definition reportedMessage (e : Stream.JsError) : jsstring :=
  match Stream.message e with
  | Some m => if truthy m then m else Stream.requestFailedMsg
  | None => Stream.requestFailedMsg
  end.

(** *** Invariants of a session *)

(** The registrations of the listener on the external signal: at most one,
    and removed if and only if it is no longer held. *)
Definition listenerBalance {TD : TextDecoder} (s : Stream.State) : Prop :=
  Stream.count isAddListener (Stream.log s) <= 1
  /\ Stream.count isRemoveListener (Stream.log s)
     + (if Stream.listener s then 1 else 0)
     = Stream.count isAddListener (Stream.log s).

(** A timer, if this effect sets one, is set to [d]. *)
Definition timerIs (d : Z) (e : Stream.Effect) : bool :=
  match e with
  | Stream.ESetTimeout ms => (ms =? d)%Z
  | _ => true
  end.

(** The retry loop: [attempts] counts the timers set, stays within the
    configured maximum, and every request but the first follows a timer. *)
Definition requestBudget {TD : TextDecoder} (cfg : Stream.Config)
  (s : Stream.State) : Prop :=
  (0 <= Stream.attempts s <= Z.max 0 (Stream.maxRetries cfg))%Z
  /\ Z.of_nat (Stream.count isSetTimeout (Stream.log s)) = Stream.attempts s
  /\ (Z.of_nat (Stream.count Stream.isInstance (Stream.log s))
      <= Stream.attempts s
         + match Stream.phase s with
           | Stream.AwaitTimer => 0
           | _ => 1
           end)%Z
  /\ forallb (timerIs (Stream.retryDelay cfg)) (Stream.log s) = true.

(** [onComplete] or the task's [onError] has been called at most once, and
    then the task has ended. *)
Definition oneEnding {TD : TextDecoder} (s : Stream.State) : Prop :=
  Stream.count Stream.isOnError (Stream.log s)
  + Stream.count Stream.isOnComplete (Stream.log s) = 0
  \/ (Stream.count Stream.isOnError (Stream.log s)
      + Stream.count Stream.isOnComplete (Stream.log s) = 1
      /\ Stream.phase s = Stream.Finished).

(** The task is not suspended at a read. *)
Definition notReading {TD : TextDecoder} (s : Stream.State) : Prop :=
  match Stream.phase s with
  | Stream.AwaitRead _ => False
  | _ => True
  end.

(** While no reader has been taken the task is not reading and [onChunk]
    has not been called. *)
Definition noReaderYet {TD : TextDecoder} (s : Stream.State) : Prop :=
  Stream.reader s = false ->
  notReading s /\ Stream.count Stream.isOnChunk (Stream.log s) = 0.

(** The listener is held only when an external signal was passed. *)
Definition listenerNeedsSignal {TD : TextDecoder} (cfg : Stream.Config)
  (s : Stream.State) : Prop :=
  Stream.listener s = true -> Stream.opt_signal (Stream.options cfg) <> None.

(** *** Sessions with callbacks that throw *)

Definition isReturns (o : Throwing.Outcome) : bool :=
  match o with
  | Throwing.Returns => true
  | Throwing.Throws _ => false
  end.

(** The first call of a callback returns. *)
Definition firstReturns (outs : list Throwing.Outcome) : bool :=
  isReturns (fst (Throwing.next outs)).

(** Every callback called on account of this happening returns. *)
Definition returning (h : Throwing.Happening) : bool :=
  forallb isReturns (snd h).

Definition notCancels (h : Throwing.Happening) : bool :=
  match fst h with
  | Throwing.Cancels _ => false
  | _ => true
  end.

(** After the cancel: the cancel function is not called again, and no
    response that has a stream arrives. *)
Definition quietAfterCancel (h : Throwing.Happening) : bool :=
  match fst h with
  | Throwing.Cancels _ => false
  | Throwing.Fulfils r => negb (Stream.isStream (Stream.readableStream r))
  | _ => true
  end.

(** The value is an object that the [catch] of [readStreamChunk] does not
    take for the abort of the read. *)
Definition notAbortError (e : Stream.JsError) : bool :=
  negb (Stream.fieldIs (Stream.name e) (lit "AbortError")).

(** An attempt that fails to establish the stream, with a thrown value whose
    properties can be read. *)
Definition establishmentFails (h : Throwing.Happening) : bool :=
  match fst h with
  | Throwing.Rejects (Throwing.Value e) => notCancellation e
  | Throwing.Fulfils r => negb (Stream.isStream (Stream.readableStream r))
  | _ => false
  end.

(** The error such an attempt ends in the [catch] with. *)
Definition thrownIn (h : Throwing.Happening) : Stream.JsError :=
  match fst h with
  | Throwing.Rejects (Throwing.Value e) => e
  | _ => Stream.notStreamError
  end.

(** One failed attempt followed by the retry timer. *)
Definition failedAttempt (h : Throwing.Happening) : list Throwing.Happening :=
  [h; (Throwing.TimerFires, [])].

(** When every callback returns, a happening does to the variables and to
    the log what this input does in the controller without throwing
    callbacks: [err.name] on [null] in [makeRequest] ends the task like a
    cancelled request, in the outermost [readStreamChunk] like an aborted
    read, and below it the [TypeError] is a failed read for the call that
    awaits. *)
Definition plainInput {TD : TextDecoder} (t : Throwing.Task)
  (h : Throwing.Happening) : Stream.Input :=
  match fst h with
  | Throwing.Fulfils r => Stream.Fulfilled r
  | Throwing.Rejects (Throwing.Value e) => Stream.Rejected e
  | Throwing.Rejects (Throwing.Nullish _) => Stream.Rejected canceledError
  | Throwing.TimerFires => Stream.TimerFired
  | Throwing.ReadGives value => Stream.ReadChunk value
  | Throwing.ReadEnds => Stream.ReadDone
  | Throwing.ReadRejects (Throwing.Value e) => Stream.ReadFailed e
  | Throwing.ReadRejects (Throwing.Nullish m) =>
      match Throwing.frames t with
      | 0 => Stream.ReadFailed abortError
      | S _ => Stream.ReadFailed (Throwing.typeError m)
      end
  | Throwing.Cancels b => Stream.Cancel b
  | Throwing.SignalAborts => Stream.SignalAbort
  end.

(** The state with more calls in the log. *)
Definition appendLog {TD : TextDecoder} (l : list Stream.Effect)
  (s : Stream.State) : Stream.State :=
  {| Stream.aborted := Stream.aborted s; Stream.reader := Stream.reader s;
     Stream.listener := Stream.listener s; Stream.attempts := Stream.attempts s;
     Stream.phase := Stream.phase s; Stream.log := Stream.log s ++ l |}.

(** What the [catch] blocks of [readStreamChunk] do to a state: the
    listener is removed, and [onError] is called some number of times. *)
Definition reportsAdded {TD : TextDecoder} (cfg : Stream.Config)
  (s s' : Stream.State) : Prop :=
  exists l, s' = appendLog l (Stream.cleanup cfg s)
            /\ forallb Stream.isOnError l = true.

(** A stream response, then reads that give the values, every callback
    returning. *)
Definition chunksRead (r : Stream.Response) (values : list (list Byte.byte))
  : list Throwing.Happening :=
  (Throwing.Fulfils r, [])
  :: map (fun v => (Throwing.ReadGives v, [])) values.

(** *** Configuration objects

    An object is the list of its own properties in the order of their
    creation; a key occurs once. *)

#[warnings="-register-all"] Inductive JsValue : Type :=
| VUndefined
| VNumber (n : Z)
| VString (s : jsstring)
| VBoolean (b : bool)
| VObject (props : list (jsstring * JsValue))
| VHost (label : jsstring).   (* a signal, a function: opaque here *)

Definition JsObject : Type := list (jsstring * JsValue).

(** [o[k]], [None] when [o] has no own property [k]. *)
Fixpoint getProp (k : jsstring) (o : JsObject) : option JsValue :=
  match o with
  | [] => None
  | (k', v) :: o' => if Stream.strEq k' k then Some v else getProp k o'
  end.

(** [o[k] = v]: an existing property keeps its place. *)
Fixpoint setProp (k : jsstring) (v : JsValue) (o : JsObject) : JsObject :=
  match o with
  | [] => [(k, v)]
  | (k', v') :: o' =>
      if Stream.strEq k' k then (k, v) :: o' else (k', v') :: setProp k v o'
  end.

(** [{ ...target, ...source }], the properties of [source] copied in order. *)
Definition spread (source target : JsObject) : JsObject :=
  fold_left (fun o kv => setProp (fst kv) (snd kv) o) source target.

(** [config/defaultConfig.ts] *)
Definition defaultConfig : JsObject :=
  [ (lit "timeout", VNumber (1000 * 15));
    (lit "headers",
     VObject [(lit "Content-Type", VString (lit "application/json;charset=utf-8"))]) ].

(** [finalConfig] of [createInstance]: [{ ...defaultConfig, ...config }]. *)
Definition finalConfig (config : JsObject) : JsObject :=
  spread config (spread defaultConfig []).

(** The object [makeRequest] passes to [instance]. *)
Definition requestConfig (options : JsObject) : JsObject :=
  setProp (lit "signal") (VHost (lit "controller.signal"))
    (setProp (lit "timeout") (VNumber 0)
       (setProp (lit "responseType") (VString (lit "stream"))
          (setProp (lit "adapter") (VString (lit "fetch"))
             (setProp (lit "isStream") (VBoolean true)
                (spread options []))))).

(** The keys that [makeRequest] sets itself. *)
Definition isForcedKey (k : jsstring) : bool :=
  Stream.strEq (lit "isStream") k || Stream.strEq (lit "adapter") k
  || Stream.strEq (lit "responseType") k || Stream.strEq (lit "timeout") k
  || Stream.strEq (lit "signal") k.

Definition keys (o : JsObject) : list jsstring := map fst o.

(** ** The string operations on sample inputs *)

Example split_commas :
  split (lit "a,b,,c") (lit ",") = [lit "a"; lit "b"; lit ""; lit "c"].
Proof. reflexivity. Qed.

Example split_empty : split [] nn = [[]].
Proof. reflexivity. Qed.

Example split_three_breaks :
  split (lit "a" ++ nn ++ nl ++ lit "b") nn = [lit "a"; nl ++ lit "b"].
Proof. reflexivity. Qed.

Example split_closed_text :
  split (lit "data: x" ++ nn) nn = [lit "data: x"; []].
Proof. reflexivity. Qed.

Example trim_both_ends : trim (lit "  a b " ++ nl) = lit "a b".
Proof. reflexivity. Qed.

Example parseInt_samples :
  parseInt (lit "3000") = Some 3000%Z
  /\ parseInt (lit " -7") = Some (-7)%Z
  /\ parseInt (lit "12abc") = Some 12%Z
  /\ parseInt (lit "abc") = None
  /\ parseInt (lit "+") = None
  /\ parseInt [] = None.
Proof. repeat split; reflexivity. Qed.

Example parse_full_event :
  parseSSEEvent (lit "event: tick" ++ nl ++ lit "id: 7" ++ nl
                 ++ lit "retry: 3000" ++ nl ++ lit ": comment" ++ nl
                 ++ lit "data:one" ++ nl ++ lit "data: two")
  = Some {| event := Some (lit "tick");
            data := Some (lit "one" ++ nl ++ lit "two");
            id := Some (lit "7"); retry := Some 3000%Z |}.
Proof. reflexivity. Qed.

Example parse_comment_only : parseSSEEvent (lit ": keep-alive") = None.
Proof. reflexivity. Qed.

(** ** Properties of [split] *)

Section Split.
Variable sep : jsstring.
Hypothesis sep_nonempty : sep <> [].

Lemma startsWith_decompose (s p : jsstring) :
  startsWith s p = true -> s = p ++ skipn (List.length p) s.
Proof.
  revert s; induction p as [|a p IH]; intros s H; [reflexivity|].
  destruct s as [|b s]; simpl in H; [discriminate|].
  apply andb_prop in H as [Hab Hs].
  apply N.eqb_eq in Hab; subst b; simpl.
  f_equal; apply IH; exact Hs.
Qed.

Lemma startsWith_app (p t : jsstring) : startsWith (p ++ t) p = true.
Proof.
  induction p as [|a p IH]; simpl; [reflexivity|].
  rewrite N.eqb_refl; exact IH.
Qed.

Lemma startsWith_longer (s t p : jsstring) :
  (List.length p <= List.length s)%nat ->
  startsWith (s ++ t) p = startsWith s p.
Proof.
  revert s; induction p as [|a p IH]; intros s H; [reflexivity|].
  destruct s as [|b s]; simpl in *; [lia|].
  rewrite IH by lia; reflexivity.
Qed.

Lemma cut_decompose (s a b : jsstring) :
  cut sep s = Some (a, b) -> s = a ++ sep ++ b.
Proof.
  revert a b; induction s as [|c s IH]; intros a b H.
  - simpl in H. destruct (startsWith [] sep) eqn:E; [|discriminate].
    injection H as <- <-. apply startsWith_decompose in E. exact E.
  - simpl in H. destruct (startsWith (c :: s) sep) eqn:E.
    + injection H as <- <-. apply startsWith_decompose in E. exact E.
    + destruct (cut sep s) as [[a' b']|]; [|discriminate].
      injection H as <- <-. simpl; f_equal. apply IH; reflexivity.
Qed.

Lemma cut_shorter (s a b : jsstring) :
  cut sep s = Some (a, b) -> (List.length b < List.length s)%nat.
Proof.
  intro H. apply cut_decompose in H. subst s.
  rewrite !length_app. destruct sep; [contradiction|simpl; lia].
Qed.

Lemma cut_app (s1 s2 a b : jsstring) :
  cut sep s1 = Some (a, b) -> cut sep (s1 ++ s2) = Some (a, b ++ s2).
Proof.
  revert a b; induction s1 as [|c s1 IH]; intros a b H.
  - pose proof (cut_shorter _ _ _ H) as L. simpl in L. lia.
  - pose proof (cut_decompose _ _ _ H) as D.
    assert (L : (List.length sep <= List.length (c :: s1))%nat).
    { rewrite D, !length_app. lia. }
    simpl in H. simpl app at 1. simpl cut.
    change (c :: s1 ++ s2) with ((c :: s1) ++ s2).
    rewrite (startsWith_longer _ s2 _ L).
    destruct (startsWith (c :: s1) sep) eqn:E.
    + injection H as <- <-. f_equal. f_equal.
      rewrite skipn_app.
      replace (List.length sep - List.length (c :: s1))%nat with 0%nat by lia.
      reflexivity.
    + destruct (cut sep s1) as [[a' b']|] eqn:C; [|discriminate].
      injection H as <- <-. rewrite (IH a' b' eq_refl). reflexivity.
Qed.

Lemma split_from_enough (n m : nat) (s : jsstring) :
  (List.length s <= n)%nat -> (List.length s <= m)%nat ->
  split_from n s sep = split_from m s sep.
Proof.
  revert m s; induction n as [|n IH]; intros m s Hn Hm; simpl.
  - destruct (cut sep s) as [[a b]|] eqn:C.
    + apply cut_shorter in C. lia.
    + destruct m; simpl; rewrite C; reflexivity.
  - destruct (cut sep s) as [[a b]|] eqn:C.
    + pose proof (cut_shorter _ _ _ C) as L.
      destruct m as [|m]; [lia|]. simpl. rewrite C.
      f_equal. apply IH; lia.
    + destruct m; simpl; rewrite C; reflexivity.
Qed.

Lemma split_found (s a b : jsstring) :
  cut sep s = Some (a, b) -> split s sep = a :: split b sep.
Proof.
  intro C. unfold split.
  pose proof (cut_shorter _ _ _ C) as L.
  destruct (List.length s) as [|n] eqn:E; [lia|].
  simpl. rewrite C. f_equal. apply split_from_enough; lia.
Qed.

Lemma split_none (s : jsstring) : cut sep s = None -> split s sep = [s].
Proof.
  intro C. unfold split. destruct (List.length s); simpl; rewrite C; reflexivity.
Qed.

Lemma split_nonempty (s : jsstring) : split s sep <> [].
Proof.
  destruct (cut sep s) as [[a b]|] eqn:C.
  - rewrite (split_found _ _ _ C). discriminate.
  - rewrite (split_none _ C). discriminate.
Qed.

(** Induction along the matches that [split] finds. *)
Lemma split_ind (P : jsstring -> Prop) :
  (forall s, cut sep s = None -> P s) ->
  (forall s a b, cut sep s = Some (a, b) -> P b -> P s) ->
  forall s, P s.
Proof.
  intros Hnone Hsome s.
  remember (List.length s) as n eqn:E.
  revert s E; induction n as [n IH] using lt_wf_ind; intros s E.
  destruct (cut sep s) as [[a b]|] eqn:C.
  - apply (Hsome s a b C).
    apply (IH (List.length b)); [|reflexivity].
    subst n. exact (cut_shorter _ _ _ C).
  - apply Hnone; exact C.
Qed.

Lemma removelast_cons (A : Type) (x : A) (l : list A) :
  l <> [] -> removelast (x :: l) = x :: removelast l.
Proof. destruct l; [contradiction|reflexivity]. Qed.

Lemma last_cons (A : Type) (x d : A) (l : list A) :
  l <> [] -> last (x :: l) d = last l d.
Proof. destruct l; [contradiction|reflexivity]. Qed.

(** Splitting a text that arrives in two pieces: the segments closed inside
    the first piece stay, and the scan goes on from the open segment. *)
Lemma split_app (s1 s2 : jsstring) :
  split (s1 ++ s2) sep
  = removelast (split s1 sep) ++ split (last (split s1 sep) [] ++ s2) sep.
Proof.
  induction s1 as [s1 C|s1 a b C IH] using split_ind.
  - rewrite (split_none _ C). reflexivity.
  - rewrite (split_found _ _ _ C).
    rewrite (split_found _ _ _ (cut_app _ s2 _ _ C)).
    rewrite removelast_cons, last_cons by apply split_nonempty.
    rewrite IH. reflexivity.
Qed.

(** The last segment holds no match. *)
Lemma split_last_clean (s : jsstring) :
  cut sep (last (split s sep) []) = None.
Proof.
  induction s as [s C|s a b C IH] using split_ind.
  - rewrite (split_none _ C). exact C.
  - rewrite (split_found _ _ _ C), last_cons by apply split_nonempty.
    exact IH.
Qed.

(** The segments, put back together with the separator, give the text. *)
Lemma join_split (s : jsstring) : join sep (split s sep) = s.
Proof.
  induction s as [s C|s a b C IH] using split_ind.
  - rewrite (split_none _ C). reflexivity.
  - rewrite (split_found _ _ _ C).
    pose proof (split_nonempty b) as NE.
    simpl. destruct (split b sep) eqn:E; [contradiction|].
    rewrite IH. symmetry. apply cut_decompose. exact C.
Qed.

End Split.

(** ** The stateful parser and the boundaries of the chunks *)

Lemma nn_nonempty : nn <> [].
Proof. discriminate. Qed.

Lemma nl_nonempty : nl <> [].
Proof. discriminate. Qed.

Lemma parserStep_log (parts : list jsstring) (calls : list SSEEvent) :
  fold_left parserStep parts calls = calls ++ flat_map segmentEvents parts.
Proof.
  revert calls; induction parts as [|p parts IH]; intro calls; simpl.
  - rewrite app_nil_r; reflexivity.
  - rewrite IH. unfold parserStep, segmentEvents.
    destruct (truthy (trim p)); simpl.
    + destruct (parseSSEEvent p); simpl; [rewrite <- app_assoc|]; reflexivity.
    + reflexivity.
Qed.

Lemma parserCall_events (b chunk : jsstring) :
  parserCall b chunk
  = (last (split (b ++ chunk) nn) [],
     flat_map segmentEvents (removelast (split (b ++ chunk) nn))).
Proof. unfold parserCall. rewrite parserStep_log. reflexivity. Qed.

Lemma removelast_app_nonempty (A : Type) (l1 l2 : list A) :
  l2 <> [] -> removelast (l1 ++ l2) = l1 ++ removelast l2.
Proof. intro H. apply removelast_app; exact H. Qed.

Lemma last_app_nonempty (A : Type) (l1 l2 : list A) (d : A) :
  l2 <> [] -> last (l1 ++ l2) d = last l2 d.
Proof.
  intro H. induction l1 as [|x l1 IH]; [reflexivity|].
  simpl app. rewrite last_cons; [exact IH|].
  destruct l1; simpl; [exact H|discriminate].
Qed.

(** Feeding chunks to a parser whose buffer holds no separator: the buffer
    and the events are those of the buffer and the chunks put together. *)
Lemma feedAll_concat (chunks : list jsstring) (p : Parser) :
  cut nn (buffer p) = None ->
  feedAll p chunks
  = {| buffer := last (split (buffer p ++ List.concat chunks) nn) [];
       emitted := emitted p ++
         flat_map segmentEvents
           (removelast (split (buffer p ++ List.concat chunks) nn)) |}.
Proof.
  revert p; induction chunks as [|c chunks IH]; intros p Hp.
  - simpl. rewrite app_nil_r, (split_none nn _ Hp). simpl.
    rewrite app_nil_r. destruct p; reflexivity.
  - change (feedAll p (c :: chunks)) with (feedAll (feed p c) chunks).
    rewrite IH.
    + unfold feed. rewrite parserCall_events. simpl buffer. simpl emitted.
      simpl List.concat. rewrite (app_assoc (buffer p) c).
      rewrite (split_app nn nn_nonempty (buffer p ++ c) (List.concat chunks)).
      rewrite last_app_nonempty, removelast_app_nonempty
        by (apply split_nonempty; exact nn_nonempty).
      rewrite flat_map_app, app_assoc. reflexivity.
    + unfold feed. rewrite parserCall_events. simpl.
      apply split_last_clean. exact nn_nonempty.
Qed.

(** C2. A text fed to the stateful parser in any number of consecutive
    chunks makes it emit the same events, in the same order, as the whole
    text fed in one call, and leaves the same text in the buffer: the open
    segment at the end is held back in both cases. *)
Theorem chunk_boundary_independence (chunks : list jsstring) :
  emitted (feedAll createSSEParser chunks)
  = emitted (feed createSSEParser (List.concat chunks))
  /\ buffer (feedAll createSSEParser chunks)
     = buffer (feed createSSEParser (List.concat chunks)).
Proof.
  change (feed createSSEParser (List.concat chunks))
    with (feedAll createSSEParser [List.concat chunks]).
  rewrite !feedAll_concat by reflexivity.
  simpl List.concat. rewrite app_nil_r. split; reflexivity.
Qed.

(** C9 as stated, with the trimmed segment as what gets parsed, does not
    describe the code: on the chunk ["data: x \n\n"] the code emits the
    data ["x "], the trimmed segment would give ["x"]. *)
Lemma trimmed_segment_is_not_what_is_parsed :
  ~ (forall b chunk : jsstring, parserCall b chunk = parserCallTrimmed b chunk).
Proof.
  intro H. specialize (H [] (lit "data: x " ++ nn)).
  vm_compute in H. discriminate H.
Qed.

(** C9, amended. In a call of the stateful parser the last segment of the
    blank-line split becomes the buffer; every other segment is tested by
    trimming it, and when the trimmed text is not empty the segment itself,
    untrimmed, is parsed by the frame parser; an event that the parse gives
    is passed to the callback whole. *)
Theorem parser_call_segments (p : Parser) (chunk : jsstring) :
  let parts := split (buffer p ++ chunk) nn in
  buffer (feed p chunk) = last parts []
  /\ emitted (feed p chunk)
     = emitted p ++ flat_map segmentEvents (removelast parts).
Proof.
  unfold feed. rewrite parserCall_events. simpl. split; reflexivity.
Qed.

(** ** The buffer of the stateful parser *)

Section LastOccurrence.
Variable sep : jsstring.
Hypothesis sep_nonempty : sep <> [].

Lemma afterLast_none_iff (s : jsstring) :
  afterLast sep s = None <-> cut sep s = None.
Proof.
  induction s as [|c s IH].
  - simpl. destruct sep; [contradiction|]. simpl. tauto.
  - simpl. destruct (afterLast sep s) as [r|].
    + split; [discriminate|]. intro H.
      destruct (startsWith (c :: s) sep); [discriminate|].
      destruct (cut sep s) as [[a b]|]; [discriminate|].
      assert (Some r = None) by (apply IH; reflexivity). discriminate.
    + destruct (startsWith (c :: s) sep); [split; discriminate|].
      replace (cut sep s) with (@None (jsstring * jsstring))
        by (symmetry; apply IH; reflexivity).
      tauto.
Qed.

Lemma afterLast_cons (c : N) (s : jsstring) :
  afterLast sep (c :: s)
  = match afterLast sep s with
    | Some r => Some r
    | None =>
        if startsWith (c :: s) sep
        then Some (skipn (List.length sep) (c :: s))
        else None
    end.
Proof. reflexivity. Qed.

Lemma afterLast_app_some (a t r : jsstring) :
  afterLast sep t = Some r -> afterLast sep (a ++ t) = Some r.
Proof.
  intro H. induction a as [|c a IH]; [exact H|].
  simpl. rewrite IH. reflexivity.
Qed.

End LastOccurrence.

Lemma last_split_afterLast (s : jsstring) :
  last (split s nn) [] = suffixAfterLast nn s
  \/ last (split s nn) [] = 10%N :: suffixAfterLast nn s.
Proof.
  induction s as [s C|s a b C IH] using (split_ind nn nn_nonempty).
  - left. rewrite (split_none nn _ C). unfold suffixAfterLast.
    apply (afterLast_none_iff nn nn_nonempty) in C. rewrite C. reflexivity.
  - rewrite (split_found nn nn_nonempty _ _ _ C).
    rewrite last_cons by (apply split_nonempty; exact nn_nonempty).
    apply (cut_decompose nn) in C. subst s.
    unfold suffixAfterLast in *.
    destruct (afterLast nn b) as [r|] eqn:E.
    + rewrite app_assoc, (afterLast_app_some nn _ _ _ E). exact IH.
    + pose proof (afterLast_cons nn) as afterLast_cons.
      assert (Cb : cut nn b = None)
        by (apply (afterLast_none_iff nn nn_nonempty); exact E).
      rewrite (split_none nn _ Cb). simpl last.
      destruct b as [|c b'].
      * left. rewrite (afterLast_app_some nn a (nn ++ []) []); reflexivity.
      * rewrite afterLast_cons in E.
        destruct (afterLast nn b') as [r|] eqn:E'; [discriminate E|].
        destruct (N.eqb 10 c) eqn:Ec.
        -- apply N.eqb_eq in Ec. subst c. right.
           rewrite (afterLast_app_some nn a (nn ++ 10%N :: b') b');
             [reflexivity|].
           change (nn ++ 10%N :: b') with (10%N :: 10%N :: 10%N :: b').
           rewrite !afterLast_cons, E'.
           destruct b' as [|c' b'']; [reflexivity|].
           simpl in E. simpl. rewrite E. reflexivity.
        -- left.
           rewrite (afterLast_app_some nn a (nn ++ c :: b') (c :: b'));
             [reflexivity|].
           change (nn ++ c :: b') with (10%N :: 10%N :: c :: b').
           rewrite !afterLast_cons, E', E.
           unfold nn. cbn [startsWith]. rewrite Ec. reflexivity.
Qed.

(** C10 as stated fails: the text after the last occurrence of ["\n\n"] is
    not always what the buffer holds: after the chunk ["a\n\n\n"] the last occurrence ends the
    text, and the buffer is ["\n"]. *)
Lemma buffer_is_not_suffix_after_last_occurrence :
  ~ (forall chunks : list jsstring,
       let p := feedAll createSSEParser chunks in
       includes (buffer p) nn = false
       /\ buffer p = suffixAfterLast nn (List.concat chunks)).
Proof.
  intro H. specialize (H [lit "a" ++ nn ++ nl]).
  destruct H as [_ H]. vm_compute in H. discriminate H.
Qed.

(** C10, amended. After every call of the function that [createSSEParser]
    returns, the buffer holds no ["\n\n"], and it is the last segment of the
    split of all the chunks fed so far, put together, on ["\n\n"] (matches
    taken from the left, without overlap). That is the text after the last
    occurrence of ["\n\n"], or the whole text when there is none, except
    when the last occurrence overlaps the last match: then the buffer is
    ["\n"] followed by that text. *)
Theorem buffer_is_last_segment (chunks : list jsstring) :
  let p := feedAll createSSEParser chunks in
  let T := List.concat chunks in
  includes (buffer p) nn = false
  /\ buffer p = last (split T nn) []
  /\ (buffer p = suffixAfterLast nn T
      \/ buffer p = 10%N :: suffixAfterLast nn T).
Proof.
  simpl. rewrite feedAll_concat by reflexivity. simpl.
  split; [|split].
  - unfold includes. rewrite split_last_clean; [reflexivity|exact nn_nonempty].
  - reflexivity.
  - apply last_split_afterLast.
Qed.

(** ** The frame parser *)

Lemma dataContent_payload (line : jsstring) :
  dataContent line = dataPayload line.
Proof.
  unfold dataContent, dataPayload, slice.
  destruct (skipn 5 line) as [|c r]; [reflexivity|].
  change (startsWith (c :: r) (lit " ")) with (N.eqb 32 c && true).
  rewrite andb_true_r, N.eqb_sym.
  destruct (N.eqb c 32); reflexivity.
Qed.

Lemma handleLine_dataLines (st : LoopState) (line : jsstring) :
  dataLines (handleLine st line)
  = dataLines st ++ (if isDataPrefixed line then [dataContent line] else []).
Proof.
  unfold handleLine, isDataPrefixed.
  destruct (startsWith line (lit "data:")); [reflexivity|].
  rewrite app_nil_r.
  destruct (startsWith line (lit "event:")); [reflexivity|].
  destruct (startsWith line (lit "id:")); [reflexivity|].
  destruct (startsWith line (lit "retry:")); [|reflexivity].
  destruct (parseInt _); reflexivity.
Qed.

Lemma handleLine_data (st : LoopState) (line : jsstring) :
  data (result (handleLine st line)) = data (result st).
Proof.
  unfold handleLine.
  destruct (startsWith line (lit "data:")); [reflexivity|].
  destruct (startsWith line (lit "event:")); [reflexivity|].
  destruct (startsWith line (lit "id:")); [reflexivity|].
  destruct (startsWith line (lit "retry:")); [|reflexivity].
  destruct (parseInt _); reflexivity.
Qed.

Lemma loop_dataLines (lines : list jsstring) (st : LoopState) :
  dataLines (fold_left handleLine lines st)
  = dataLines st ++ map dataContent (filter isDataPrefixed lines).
Proof.
  revert st; induction lines as [|l lines IH]; intro st; simpl.
  - rewrite app_nil_r; reflexivity.
  - rewrite IH, handleLine_dataLines.
    destruct (isDataPrefixed l); simpl.
    + rewrite <- app_assoc; reflexivity.
    + rewrite app_nil_r; reflexivity.
Qed.

Lemma loop_data (lines : list jsstring) (st : LoopState) :
  data (result (fold_left handleLine lines st)) = data (result st).
Proof.
  revert st; induction lines as [|l lines IH]; intro st; simpl.
  - reflexivity.
  - rewrite IH. apply handleLine_data.
Qed.

Lemma finishEvent_data (st : LoopState) :
  data (result st) = None ->
  dataField (finishEvent st)
  = match dataLines st with
    | [] => None
    | _ :: _ => Some (join nl (dataLines st))
    end.
Proof.
  intro H. unfold finishEvent.
  destruct (dataLines st) as [|d ds] eqn:E; simpl.
  - destruct (hasKeys (result st)); [exact H|reflexivity].
  - unfold hasKeys, set_data; simpl.
    destruct (event (result st)); reflexivity.
Qed.

(** C6. The data field of the event of a block is made of its [data:]
    lines, in the order met: of each one the five code units of the prefix
    are dropped and then one space when the rest starts with a space
    (further spaces stay); the results are joined with a line break. There
    is no data field when the block has no [data:] line. So the block
    ["data: a\ndata: b\n\n"] has the data field ["a\nb"]. *)
Theorem data_field_of_block :
  (forall block : jsstring,
     dataField (parseSSEEvent block)
     = match filter isDataPrefixed (split block nl) with
       | [] => None
       | ls => Some (join nl (map dataPayload ls))
       end)
  /\ dataField (parseSSEEvent (lit "data: a" ++ nl ++ lit "data: b" ++ nn))
     = Some (lit "a" ++ nl ++ lit "b")
  /\ dataPayload (lit "data:  two") = lit " two".
Proof.
  split; [|split; reflexivity].
  intro block. unfold parseSSEEvent, parseLines.
  rewrite finishEvent_data by (rewrite loop_data; reflexivity).
  rewrite loop_dataLines. simpl.
  destruct (filter isDataPrefixed (split block nl)) as [|l ls]; [reflexivity|].
  rewrite (map_ext _ _ dataContent_payload). reflexivity.
Qed.

(** *** [trim] and [parseInt] *)

Lemma trimStart_clean (s : jsstring) : startsClean (trimStart s) = true.
Proof.
  induction s as [|c s IH]; [reflexivity|].
  simpl. destruct (isWhiteSpace c) eqn:E; [exact IH|].
  simpl. rewrite E. reflexivity.
Qed.

Lemma trimStart_fixed (s : jsstring) :
  startsClean s = true -> trimStart s = s.
Proof.
  destruct s as [|c s]; [reflexivity|].
  simpl. destruct (isWhiteSpace c); [discriminate|reflexivity].
Qed.

Lemma trimStart_keeps_last (x : jsstring) (c : N) :
  isWhiteSpace c = false -> exists y, trimStart (x ++ [c]) = y ++ [c].
Proof.
  intro H. induction x as [|a x IH].
  - exists []. simpl. rewrite H. reflexivity.
  - simpl. destruct (isWhiteSpace a).
    + exact IH.
    + exists (a :: x). reflexivity.
Qed.

Lemma trimEnd_clean (s : jsstring) :
  startsClean s = true -> startsClean (trimEnd s) = true.
Proof.
  destruct s as [|c s]; [reflexivity|].
  simpl. intro H. apply negb_true_iff in H.
  unfold trimEnd. simpl rev.
  destruct (trimStart_keeps_last (rev s) c H) as [y ->].
  rewrite rev_app_distr. simpl. rewrite H. reflexivity.
Qed.

Lemma trimStart_trim (s : jsstring) : trimStart (trim s) = trim s.
Proof.
  apply trimStart_fixed. apply trimEnd_clean. apply trimStart_clean.
Qed.

Lemma parseInt_dropSign (s : jsstring) :
  parseInt s
  = match digitsPrefix (dropSign (trimStart s)) with
    | [] => None
    | ds =>
        Some ((if startsWith (trimStart s) (lit "-") then (-1) else 1)
              * digitsValue ds)%Z
    end.
Proof.
  unfold parseInt, dropSign, slice.
  destruct (trimStart s) as [|c r]; [reflexivity|].
  change (startsWith (c :: r) (lit "-")) with (N.eqb 45 c && true).
  change (startsWith (c :: r) (lit "+")) with (N.eqb 43 c && true).
  rewrite !andb_true_r, (N.eqb_sym 45 c), (N.eqb_sym 43 c).
  destruct (N.eqb c 45), (N.eqb c 43); reflexivity.
Qed.

(** [parseInt] gives NaN exactly when no digit leads the trimmed content. *)
Lemma parseInt_trim_NaN (v : jsstring) :
  parseInt (trim v) = None <-> leadingDigit v = false.
Proof.
  rewrite parseInt_dropSign, trimStart_trim. unfold leadingDigit.
  destruct (dropSign (trim v)) as [|c r]; [simpl; tauto|].
  simpl. destruct (isDigit c); split; intro H;
    try reflexivity; discriminate H.
Qed.

Lemma handleLine_retry (st : LoopState) (v : jsstring) :
  handleLine st (lit "retry:" ++ v)
  = match parseInt (trim v) with
    | Some n => {| result := set_retry n (result st);
                   dataLines := dataLines st |}
    | None => st
    end.
Proof. reflexivity. Qed.

(** C7 as stated fails: a [retry:] line whose content is not a numeral can
    still set the field, so that the event is not the one of the other
    lines:
    on ["retry: 12abc"] [parseInt] reads the leading digits and the event
    has [retry] 12. *)
Lemma digits_then_text_populates_retry :
  ~ (forall (block : jsstring) (before after : list jsstring) (v : jsstring),
       split block nl = before ++ (lit "retry:" ++ v) :: after ->
       numericContent v = false ->
       retryField (parseSSEEvent block)
       = retryField (parseLines (before ++ after))).
Proof.
  intro H.
  specialize (H (lit "retry: 12abc") [] [] (lit " 12abc") eq_refl eq_refl).
  vm_compute in H. discriminate H.
Qed.

(** C7, amended. A [retry:] line whose content, once trimmed, does not
    start with a decimal digit (one sign before it is allowed) does not set
    the retry field and raises nothing: the event of the block is the event
    of its other lines, all of which are processed as usual. (A content that
    starts with digits sets the field from them, whatever follows.) *)
Theorem malformed_retry_line_ignored
  (block : jsstring) (before after : list jsstring) (v : jsstring) :
  split block nl = before ++ (lit "retry:" ++ v) :: after ->
  leadingDigit v = false ->
  parseSSEEvent block = parseLines (before ++ after).
Proof.
  intros Hsplit Hv. unfold parseSSEEvent, parseLines.
  rewrite Hsplit, !fold_left_app.
  change (fold_left handleLine ((lit "retry:" ++ v) :: after)
            (fold_left handleLine before loopStart))
    with (fold_left handleLine after
            (handleLine (fold_left handleLine before loopStart)
               (lit "retry:" ++ v))).
  rewrite handleLine_retry.
  apply parseInt_trim_NaN in Hv. rewrite Hv. reflexivity.
Qed.

Lemma malformed_retry_line_ignored_witness :
  parseSSEEvent (lit "event: e" ++ nl ++ lit "retry: soon" ++ nl ++ lit "data: x")
  = Some {| event := Some (lit "e"); data := Some (lit "x");
            id := None; retry := None |}.
Proof.
  exact (malformed_retry_line_ignored
           (lit "event: e" ++ nl ++ lit "retry: soon" ++ nl ++ lit "data: x")
           [lit "event: e"] [lit "data: x"] (lit " soon") eq_refl eq_refl).
Defined.

(** ** The stateless splitter on texts of [data:] lines *)

Lemma cut_nl_cons (c : N) (s : jsstring) :
  cut nl (c :: s)
  = if (10 =? c)%N then Some ([], s)
    else match cut nl s with
         | Some (a, b) => Some (c :: a, b)
         | None => None
         end.
Proof.
  change (cut nl (c :: s))
    with (if (10 =? c)%N && true then Some ([], s)
          else match cut nl s with
               | Some (a, b) => Some (c :: a, b)
               | None => None
               end).
  rewrite andb_true_r. reflexivity.
Qed.

Lemma cut_nn_cons (c : N) (s : jsstring) :
  cut nn (c :: s)
  = if (10 =? c)%N && startsWith s nl then Some ([], skipn 1 s)
    else match cut nn s with
         | Some (a, b) => Some (c :: a, b)
         | None => None
         end.
Proof. reflexivity. Qed.

Lemma cut_nl_line (l rest : jsstring) :
  noBreak l = true -> cut nl (l ++ nl ++ rest) = Some (l, rest).
Proof.
  unfold noBreak. induction l as [|c l IH]; intro H; [reflexivity|].
  cbn [existsb] in H. rewrite negb_orb in H. apply andb_prop in H as [Hc Hl].
  apply negb_true_iff in Hc.
  change ((c :: l) ++ nl ++ rest) with (c :: (l ++ nl ++ rest)).
  rewrite cut_nl_cons, Hc, (IH Hl). reflexivity.
Qed.

Lemma cut_nl_none (l : jsstring) : noBreak l = true -> cut nl l = None.
Proof.
  unfold noBreak. induction l as [|c l IH]; intro H; [reflexivity|].
  cbn [existsb] in H. rewrite negb_orb in H. apply andb_prop in H as [Hc Hl].
  apply negb_true_iff in Hc.
  rewrite cut_nl_cons, Hc, (IH Hl). reflexivity.
Qed.

Lemma split_join_lines (lines : list jsstring) :
  lines <> [] -> forallb noBreak lines = true ->
  split (join nl lines) nl = lines.
Proof.
  induction lines as [|l lines IH]; intros NE H; [contradiction|].
  simpl in H. apply andb_prop in H as [Hl Hls].
  destruct lines as [|l2 lines].
  - simpl. apply split_none, cut_nl_none, Hl.
  - change (join nl (l :: l2 :: lines)) with (l ++ nl ++ join nl (l2 :: lines)).
    rewrite (split_found nl nl_nonempty _ _ _ (cut_nl_line l _ Hl)).
    rewrite IH; [reflexivity|discriminate|exact Hls].
Qed.

Lemma tidy_cut_nn (b rest : jsstring) :
  tidy b = true -> cut nn (b ++ nn ++ rest) = Some (b, rest).
Proof.
  induction b as [|c b IH]; intro H; [reflexivity|].
  cbn [tidy] in H. apply andb_prop in H as [Hc Hb].
  change ((c :: b) ++ nn ++ rest) with (c :: (b ++ nn ++ rest)).
  rewrite cut_nn_cons, (IH Hb).
  apply negb_true_iff in Hc.
  destruct (10 =? c)%N; [|reflexivity].
  destruct b as [|c' b]; [discriminate Hc|].
  cbn [andb] in Hc.
  change ((c' :: b) ++ nn ++ rest) with (c' :: (b ++ nn ++ rest)).
  cbn [startsWith nl]. rewrite Hc. reflexivity.
Qed.

Lemma tidy_cut_none (b : jsstring) : tidy b = true -> cut nn b = None.
Proof.
  induction b as [|c b IH]; intro H; [reflexivity|].
  cbn [tidy] in H. apply andb_prop in H as [Hc Hb].
  rewrite cut_nn_cons, (IH Hb).
  apply negb_true_iff in Hc.
  destruct (10 =? c)%N; [|reflexivity].
  destruct b as [|c' b]; [discriminate Hc|].
  cbn [andb] in Hc. cbn [startsWith nl]. rewrite Hc. reflexivity.
Qed.

Lemma tidy_after_line (l t : jsstring) :
  noBreak l = true -> tidy (l ++ t) = tidy t.
Proof.
  unfold noBreak. induction l as [|c l IH]; intro H; [reflexivity|].
  cbn [existsb] in H. rewrite negb_orb in H. apply andb_prop in H as [Hc Hl].
  apply negb_true_iff in Hc.
  cbn [app tidy]. rewrite Hc. cbn [andb negb]. apply IH, Hl.
Qed.

Lemma isDataLine_parts (l : jsstring) :
  isDataLine l = true ->
  isDataPrefixed l = true /\ noBreak l = true
  /\ exists r, l = 100%N :: r.
Proof.
  unfold isDataLine. intro H. apply andb_prop in H as [Hp Hb].
  split; [exact Hp|]. split; [exact Hb|].
  apply startsWith_decompose in Hp. rewrite Hp. eexists. reflexivity.
Qed.

Lemma blockText_tidy (b : list jsstring) :
  isDataBlock b = true ->
  tidy (blockText b) = true /\ exists r, blockText b = 100%N :: r.
Proof.
  unfold blockText.
  induction b as [|l b IH]; intro H; [discriminate H|].
  simpl in H. apply andb_prop in H as [Hl Hb].
  destruct (isDataLine_parts l Hl) as (_ & Hnb & r & Hr).
  destruct b as [|l2 b].
  - simpl. split; [|exists r; exact Hr].
    rewrite <- (app_nil_r l), (tidy_after_line l [] Hnb). reflexivity.
  - destruct (IH Hb) as [Ht [r2 Hr2]].
    change (join nl (l :: l2 :: b)) with (l ++ nl ++ join nl (l2 :: b)).
    split.
    + rewrite (tidy_after_line l _ Hnb), Hr2. simpl.
      rewrite Hr2 in Ht. exact Ht.
    + rewrite Hr. eexists. reflexivity.
Qed.

Lemma loop_data_lines (b : list jsstring) (st : LoopState) :
  forallb isDataLine b = true ->
  fold_left handleLine b st
  = {| result := result st; dataLines := dataLines st ++ map dataContent b |}.
Proof.
  revert st; induction b as [|l b IH]; intros st H.
  - simpl. rewrite app_nil_r. destruct st; reflexivity.
  - simpl in H. apply andb_prop in H as [Hl Hb].
    destruct (isDataLine_parts l Hl) as (Hp & _ & _).
    simpl fold_left. rewrite (IH _ Hb).
    unfold handleLine. unfold isDataPrefixed in Hp. rewrite Hp. simpl.
    rewrite <- app_assoc. reflexivity.
Qed.

Lemma parse_data_block (b : list jsstring) :
  isDataBlock b = true ->
  parseSSEEvent (blockText b)
  = Some {| event := None; data := Some (joinedData b);
            id := None; retry := None |}.
Proof.
  intro H. unfold parseSSEEvent, blockText.
  assert (Hall : forallb isDataLine b = true) by (destruct b; [discriminate H|exact H]).
  rewrite split_join_lines.
  - unfold parseLines. rewrite (loop_data_lines b _ Hall).
    unfold finishEvent, joinedData. simpl.
    rewrite (map_ext _ _ dataContent_payload).
    destruct b; [discriminate H|reflexivity].
  - destruct b; [discriminate H|discriminate].
  - clear H. induction b as [|l b IH]; [reflexivity|].
    simpl in Hall. apply andb_prop in Hall as [Hl Hb].
    destruct (isDataLine_parts l Hl) as (_ & Hnb & _).
    simpl. rewrite Hnb. exact (IH Hb).
Qed.

Lemma split_sseText (blocks : list (list jsstring)) (closed : bool) :
  forallb isDataBlock blocks = true ->
  filter truthy (split (sseText blocks closed) nn) = map blockText blocks.
Proof.
  induction blocks as [|b blocks IH]; intro H.
  - destruct closed; reflexivity.
  - simpl in H. apply andb_prop in H as [Hb Hbs].
    destruct (blockText_tidy b Hb) as [Ht [r Hr]].
    destruct blocks as [|b2 blocks].
    + unfold sseText. simpl map. simpl join. destruct closed.
      * change (blockText b ++ nn) with (blockText b ++ nn ++ []).
        rewrite (split_found nn nn_nonempty _ _ _ (tidy_cut_nn _ [] Ht)).
        rewrite Hr. reflexivity.
      * rewrite app_nil_r.
        rewrite (split_none nn _ (tidy_cut_none _ Ht)).
        rewrite Hr. reflexivity.
    + replace (sseText (b :: b2 :: blocks) closed)
        with (blockText b ++ nn ++ sseText (b2 :: blocks) closed).
      * rewrite (split_found nn nn_nonempty _ _ _ (tidy_cut_nn _ _ Ht)).
        simpl filter. rewrite (IH Hbs). rewrite Hr at 1. reflexivity.
      * unfold sseText.
        change (map blockText (b :: b2 :: blocks))
          with (blockText b :: map blockText (b2 :: blocks)).
        change (join nn (blockText b :: map blockText (b2 :: blocks)))
          with (blockText b ++ nn ++ join nn (map blockText (b2 :: blocks))).
        rewrite <- !app_assoc. reflexivity.
Qed.

Lemma chunkStep_log (events calls : list jsstring) :
  fold_left chunkStep events calls
  = calls ++ flat_map (fun ev => chunkStep [] ev) events.
Proof.
  revert calls; induction events as [|ev events IH]; intro calls; simpl.
  - rewrite app_nil_r; reflexivity.
  - rewrite IH. rewrite app_assoc. f_equal.
    unfold chunkStep. destruct (parseSSEEvent ev) as [e|].
    + destruct (data e) as [d|].
      * destruct (truthy d); [reflexivity|rewrite app_nil_r; reflexivity].
      * rewrite app_nil_r; reflexivity.
    + rewrite app_nil_r; reflexivity.
Qed.

(** C3 as stated fails: the callback is not called once per block when a
    block has an empty data string: on ["data:\n\n"] it is not called at all. *)
Lemma empty_data_block_is_skipped :
  ~ (forall (blocks : list (list jsstring)) (closed : bool),
       forallb isDataBlock blocks = true ->
       parseSSEChunk (sseText blocks closed) = map joinedData blocks).
Proof.
  intro H. specialize (H [[lit "data:"]] true eq_refl).
  vm_compute in H. discriminate H.
Qed.

(** C3, amended. On a text made only of [data:] lines and blank-line
    separators the stateless splitter calls the callback once for every
    block whose joined data string is not empty, in the order of the text,
    with that string; a block whose joined data string is empty is skipped.
    On ["data: hello\n\ndata: world\n\n"] the callback is called exactly
    twice, with ["hello"] and then with ["world"]. *)
Theorem splitter_gives_joined_data
  (blocks : list (list jsstring)) (closed : bool) :
  forallb isDataBlock blocks = true ->
  parseSSEChunk (sseText blocks closed)
  = filter truthy (map joinedData blocks).
Proof.
  intro H. unfold parseSSEChunk.
  rewrite (split_sseText blocks closed H), chunkStep_log. simpl.
  induction blocks as [|b blocks IH]; [reflexivity|].
  simpl in H. apply andb_prop in H as [Hb Hbs].
  simpl. rewrite (IH Hbs).
  unfold chunkStep at 1. rewrite (parse_data_block b Hb). simpl.
  destruct (truthy (joinedData b)); reflexivity.
Qed.

Lemma splitter_gives_joined_data_witness :
  parseSSEChunk (lit "data: hello" ++ nn ++ lit "data: world" ++ nn)
  = [lit "hello"; lit "world"].
Proof.
  exact (splitter_gives_joined_data
           [[lit "data: hello"]; [lit "data: world"]] true eq_refl).
Defined.

(** ** The stream controller *)

Section ControllerProperties.
Context {TD : TextDecoder}.
Import Stream.

Lemma noReader_not_stream (r : Response) :
  noReader r = true -> isStream (readableStream r) = false.
Proof.
  unfold noReader, readableStream.
  destruct (res_data r) as [[]|], (res_body r) as [[]|], (res_self r);
    simpl; intro H; try reflexivity; discriminate H.
Qed.

Lemma start_pending (cfg : Config) :
  opt_signal (options cfg) <> Some true ->
  phase (start cfg) = AwaitResponse /\ aborted (start cfg) = false
  /\ attempts (start cfg) = 0%Z /\ reader (start cfg) = false
  /\ count isInstance (log (start cfg)) = 1
  /\ silent (log (start cfg)) = true.
Proof.
  intro H. unfold start.
  destruct (opt_signal (options cfg)) as [[|]|]; [congruence| |];
    repeat split; reflexivity.
Qed.

Lemma run_app (cfg : Config) (s : State) (l1 l2 : list Input) :
  run cfg s (l1 ++ l2) = run cfg (run cfg s l1) l2.
Proof. apply fold_left_app. Qed.

Lemma count_app (p : Effect -> bool) (l1 l2 : list Effect) :
  count p (l1 ++ l2) = count p l1 + count p l2.
Proof. unfold count. rewrite filter_app, length_app. reflexivity. Qed.

(** A response without a stream, while retries are left: the attempt is
    counted, the timer is set, and the next request goes out when it fires. *)
Lemma retry_round (cfg : Config) (r : Response) (s : State) :
  phase s = AwaitResponse -> aborted s = false -> noReader r = true ->
  (attempts s < maxRetries cfg)%Z ->
  let s' := run cfg s (retryRound r) in
  phase s' = AwaitResponse /\ aborted s' = false
  /\ attempts s' = (attempts s + 1)%Z
  /\ log s' = log s ++ [ESetTimeout (retryDelay cfg); EInstance].
Proof.
  intros Hp Ha Hr Hlt s'. subst s'.
  apply Z.ltb_lt in Hlt.
  assert (E : step cfg s (Fulfilled r)
              = setPhase AwaitTimer
                  (emit (ESetTimeout (retryDelay cfg)) (incrAttempts s))).
  { unfold step. rewrite Hp.
    unfold afterResponse. rewrite (noReader_not_stream r Hr).
    unfold catchRequest. rewrite Ha, Hlt. reflexivity. }
  unfold run, retryRound. cbn [fold_left]. rewrite E.
  unfold step, makeRequest. cbn. rewrite Ha. cbn.
  rewrite <- app_assoc. repeat split; try reflexivity. exact Ha.
Qed.

Lemma retry_rounds (cfg : Config) (rs : list Response) (s : State) :
  phase s = AwaitResponse -> aborted s = false ->
  forallb noReader rs = true ->
  (Z.of_nat (List.length rs) <= Z.max 0 (maxRetries cfg - attempts s))%Z ->
  let s' := run cfg s (flat_map retryRound rs) in
  phase s' = AwaitResponse /\ aborted s' = false
  /\ attempts s' = (attempts s + Z.of_nat (List.length rs))%Z
  /\ log s'
     = log s ++ flat_map (fun _ => [ESetTimeout (retryDelay cfg); EInstance]) rs.
Proof.
  revert s; induction rs as [|r rs IH]; intros s Hp Ha Hrs Hlen.
  - simpl. rewrite app_nil_r, Z.add_0_r. repeat split; assumption.
  - simpl in Hrs. apply andb_prop in Hrs as [Hr Hrs].
    change (flat_map retryRound (r :: rs))
      with (retryRound r ++ flat_map retryRound rs).
    cbv zeta. rewrite run_app.
    assert (Hlt : (attempts s < maxRetries cfg)%Z)
      by (simpl List.length in Hlen; lia).
    destruct (retry_round cfg r s Hp Ha Hr Hlt) as (Hp1 & Ha1 & Hat1 & Hl1).
    destruct (IH _ Hp1 Ha1 Hrs) as (Hp2 & Ha2 & Hat2 & Hl2).
    { rewrite Hat1. simpl List.length in Hlen. lia. }
    repeat split; try assumption.
    + rewrite Hat2, Hat1. simpl List.length. lia.
    + rewrite Hl2, Hl1, <- app_assoc. reflexivity.
Qed.

(** A response without a stream when no retry is left: the error goes to
    [onError] and to the console, and the task ends. *)
Lemma no_stream_reported (cfg : Config) (r : Response) (s : State) :
  phase s = AwaitResponse -> aborted s = false -> noReader r = true ->
  (maxRetries cfg <= attempts s)%Z ->
  let s' := step cfg s (Fulfilled r) in
  phase s' = Finished
  /\ log s'
     = log s ++ (if onError cfg then [EOnError notStreamMsg] else [])
             ++ [EConsoleError (lit "Stream request failed:")].
Proof.
  intros Hp Ha Hr Hge s'. subst s'.
  apply Z.ltb_ge in Hge.
  unfold step. rewrite Hp.
  unfold afterResponse. rewrite (noReader_not_stream r Hr).
  unfold catchRequest. rewrite Ha, Hge. cbn.
  destruct (onError cfg); cbn; [rewrite <- app_assoc|]; split; reflexivity.
Qed.





(** C1, amended. When no response gives a usable reader and the session is
    not aborted, the missing stream is handled like any other failure to
    establish the request: the request is issued again, after the delay,
    until [options.retry] retries have been made; the response that follows
    the last retry makes the controller call [onError] with the message of
    the missing stream, exactly once, and issue no further request. With no
    retry configured this happens on the first response. *)
Theorem no_stream_is_retried_then_reported
  (cfg : Config) (rs : list Response) (r : Response) :
  onError cfg = true ->
  opt_signal (options cfg) <> Some true ->
  forallb noReader (rs ++ [r]) = true ->
  List.length rs = Z.to_nat (maxRetries cfg) ->
  let s := session cfg (flat_map retryRound rs ++ [Fulfilled r]) in
  phase s = Finished
  /\ log s
     = log (start cfg)
       ++ flat_map (fun _ => [ESetTimeout (retryDelay cfg); EInstance]) rs
       ++ [EOnError notStreamMsg; EConsoleError (lit "Stream request failed:")]
  /\ filter isOnError (log s) = [EOnError notStreamMsg]
  /\ count isInstance (log s) = S (List.length rs).
Proof.
  intros He Hs Hrs Hlen s.
  rewrite forallb_app in Hrs. apply andb_prop in Hrs as [Hrs Hr].
  simpl in Hr. rewrite andb_true_r in Hr.
  destruct (start_pending cfg Hs) as (Hp0 & Ha0 & Hat0 & _ & Hi0 & Hq0).
  destruct (retry_rounds cfg rs (start cfg) Hp0 Ha0 Hrs) as (Hp1 & Ha1 & Hat1 & Hl1).
  { rewrite Hat0, Hlen. lia. }
  destruct (no_stream_reported cfg r _ Hp1 Ha1 Hr) as (Hp2 & Hl2).
  { rewrite Hat1, Hat0, Hlen. lia. }
  assert (Es : s = step cfg (run cfg (start cfg) (flat_map retryRound rs))
                     (Fulfilled r)).
  { unfold s, session. rewrite run_app. reflexivity. }
  rewrite Es, Hp2, Hl2, Hl1, He. clear Es s Hl1 Hl2 Hp1 Hp2 Ha1 Hat1.
  split; [reflexivity|]. split; [rewrite <- !app_assoc; reflexivity|].
  assert (Hrounds : forall l : list Response,
             filter isOnError
               (flat_map (fun _ => [ESetTimeout (retryDelay cfg); EInstance]) l)
             = []
             /\ count isInstance
                  (flat_map (fun _ => [ESetTimeout (retryDelay cfg); EInstance]) l)
                = List.length l).
  { induction l as [|x l [IH1 IH2]]; [split; reflexivity|].
    split; [exact IH1|]. unfold count in *. simpl. rewrite IH2. reflexivity. }
  destruct (Hrounds rs) as [Hr1 Hr2].
  split.
  - rewrite !filter_app, Hr1.
    replace (filter isOnError (log (start cfg))) with (@nil Effect);
      [reflexivity|].
    unfold silent in Hq0. clear -Hq0.
    induction (log (start cfg)) as [|e l IH]; [reflexivity|].
    simpl in Hq0. apply andb_prop in Hq0 as [He Hl].
    simpl. destruct (isOnError e); [discriminate He|]. exact (IH Hl).
  - rewrite !count_app, Hi0, Hr2. unfold count. simpl. lia.
Qed.


(** *** Cancellation *)

Lemma catchRequest_aborted (cfg : Config) (e : JsError) (s : State) :
  aborted s = true -> catchRequest cfg e s = setPhase Finished s.
Proof.
  intro Ha. unfold catchRequest. rewrite Ha, !orb_true_r. reflexivity.
Qed.

Lemma silent_app (l1 l2 : list Effect) :
  silent (l1 ++ l2) = silent l1 && silent l2.
Proof. apply forallb_app. Qed.

Lemma silent_counts (l : list Effect) :
  silent l = true ->
  filter isOnError l = [] /\ count isOnChunk l = 0 /\ count isOnComplete l = 0.
Proof.
  unfold silent, count. induction l as [|e l IH]; intro H; [repeat split|].
  simpl in H. apply andb_prop in H as [He Hl].
  destruct (IH Hl) as (H1 & H2 & H3).
  simpl. destruct (isOnError e), (isOnChunk e), (isOnComplete e);
    try discriminate He. repeat split; assumption.
Qed.

End ControllerProperties.

(** ** The controller on sample sessions *)

Import Stream.

Lemma no_stream_is_retried_then_reported_witness :
  log (@session asciiDecoder (withOptions (Some 2%Z) None)
         (flat_map retryRound [bufferedResponse; bufferedResponse]
          ++ [Fulfilled bufferedResponse]))
  = [EInstance; ESetTimeout 1000; EInstance; ESetTimeout 1000; EInstance;
     EOnError notStreamMsg; EConsoleError (lit "Stream request failed:")].
Proof.
  refine (proj1 (proj2
    (@no_stream_is_retried_then_reported asciiDecoder
       (withOptions (Some 2%Z) None) [bufferedResponse; bufferedResponse]
       bufferedResponse eq_refl _ eq_refl eq_refl))).
  discriminate.
Defined.

(** C1 as stated fails: the missing stream is retried when retries are
    configured: with
    [retry: 2] the first response without a stream sets the timer, the
    request goes out again, and [onError] has not been called. *)
Lemma missing_stream_is_retried :
  ~ (forall (cfg : Config) (r : Response),
       onError cfg = true ->
       opt_signal (options cfg) = None ->
       noReader r = true ->
       let s := @session asciiDecoder cfg [Fulfilled r; TimerFired] in
       filter isOnError (log s) = [EOnError notStreamMsg]
       /\ count isInstance (log s) = 1).
Proof.
  intro H.
  specialize (H (withOptions (Some 2%Z) None) bufferedResponse
                eq_refl eq_refl eq_refl).
  destruct H as [H _]. vm_compute in H. discriminate H.
Qed.


Example cancel_during_first_read :
  log (@session asciiDecoder (withOptions (Some 1%Z) None)
         [Rejected networkError; TimerFired; Fulfilled streamResponse;
          Cancel false; ReadFailed abortError])
  = [EInstance; ESetTimeout 1000; EInstance; EGetReader;
     EAbort; EReleaseLock; EOnError cancelledMsg].
Proof. reflexivity. Qed.

(** When [releaseLock] throws, the [catch] of the cancel function logs and
    [onError] is not called. *)
Example cancel_with_failing_releaseLock :
  log (@session asciiDecoder (withOptions None None)
         [Fulfilled streamResponse; Cancel true])
  = [EInstance; EGetReader; EAbort;
     EConsoleError (lit "Failed to cancel stream request:")].
Proof. reflexivity. Qed.

(** The settings of the retry loop: a delay other than zero is the wait,
    an absent delay is 1000 ms, an absent [retry] is no retry. *)
Lemma retry_settings (cfg : Config) :
  (forall d, opt_retryDelay (options cfg) = Some d -> d <> 0%Z ->
             retryDelay cfg = d)
  /\ (opt_retryDelay (options cfg) = None -> retryDelay cfg = 1000%Z)
  /\ (opt_retry (options cfg) = None -> maxRetries cfg = 0%Z).
Proof.
  unfold retryDelay, maxRetries, numberOr. repeat split.
  - intros d -> Hd. apply Z.eqb_neq in Hd. rewrite Hd. reflexivity.
  - intros ->. reflexivity.
  - intros ->. reflexivity.
Qed.

(** C8, at [retryDelay: 0]. The delay read from the options is 1000 and not
    0: with [retry: 1] and [retryDelay: 0] a failed request sets the timer
    to 1000 ms. *)
Theorem zero_retryDelay_waits_1000 :
  retryDelay (withOptions (Some 1%Z) (Some 0%Z)) = 1000%Z
  /\ log (@session asciiDecoder (withOptions (Some 1%Z) (Some 0%Z))
            [Rejected networkError])
     = [EInstance; ESetTimeout 1000].
Proof. split; reflexivity. Qed.

(** ** Further properties of the frame parser *)

Lemma startsWith_first (l p : jsstring) (a : N) :
  startsWith l (a :: p) = true -> exists r, l = a :: r.
Proof.
  intro H. apply startsWith_decompose in H. rewrite H.
  eexists. reflexivity.
Qed.

(** The four prefixes exclude one another. *)
Lemma event_not_data (l : jsstring) :
  isEventLine l = true -> isDataPrefixed l = false.
Proof. intro H. apply startsWith_first in H as [r ->]. reflexivity. Qed.

Lemma id_not_data_event (l : jsstring) :
  isIdLine l = true -> isDataPrefixed l = false /\ isEventLine l = false.
Proof. intro H. apply startsWith_first in H as [r ->]. split; reflexivity. Qed.

Lemma retry_not_others (l : jsstring) :
  isRetryLine l = true ->
  isDataPrefixed l = false /\ isEventLine l = false /\ isIdLine l = false.
Proof.
  intro H. apply startsWith_first in H as [r ->]. repeat split; reflexivity.
Qed.

(** What one line does, by the prefix it starts with. *)
Lemma handleLine_by_prefix (st : LoopState) (l : jsstring) :
  handleLine st l
  = if isDataPrefixed l then
      {| result := result st; dataLines := dataLines st ++ [dataContent l] |}
    else if isEventLine l then
      {| result := set_event (trim (slice 6 l)) (result st);
         dataLines := dataLines st |}
    else if isIdLine l then
      {| result := set_id (trim (slice 3 l)) (result st);
         dataLines := dataLines st |}
    else match retryValue l with
         | Some n => {| result := set_retry n (result st);
                        dataLines := dataLines st |}
         | None => st
         end.
Proof.
  unfold handleLine, retryValue, isDataPrefixed, isEventLine, isIdLine,
    isRetryLine.
  destruct (startsWith l (lit "data:")); [reflexivity|].
  destruct (startsWith l (lit "event:")); [reflexivity|].
  destruct (startsWith l (lit "id:")); [reflexivity|].
  destruct (startsWith l (lit "retry:")); reflexivity.
Qed.

Lemma retryValue_line (l : jsstring) (n : Z) :
  retryValue l = Some n -> isRetryLine l = true.
Proof.
  unfold retryValue. destruct (isRetryLine l); [reflexivity|discriminate].
Qed.

Lemma last_cons_default (A : Type) (x d : A) (l : list A) :
  last (x :: l) d = last l x.
Proof.
  revert x d; induction l as [|y l IH]; intros x d; [reflexivity|].
  change (last (x :: y :: l) d) with (last (y :: l) d).
  rewrite (IH y d), (IH y x). reflexivity.
Qed.

Lemma loop_event (lines : list jsstring) (st : LoopState) :
  event (result (fold_left handleLine lines st))
  = last (map Some (map (fun l => trim (slice 6 l)) (filter isEventLine lines)))
      (event (result st)).
Proof.
  revert st; induction lines as [|l lines IH]; intro st; [reflexivity|].
  simpl fold_left. rewrite IH, handleLine_by_prefix. simpl filter.
  destruct (isEventLine l) eqn:E.
  - rewrite (event_not_data l E). cbn [map event result set_event].
    rewrite last_cons_default. reflexivity.
  - destruct (isDataPrefixed l); [reflexivity|].
    destruct (isIdLine l); [reflexivity|].
    destruct (retryValue l); reflexivity.
Qed.

Lemma loop_id (lines : list jsstring) (st : LoopState) :
  id (result (fold_left handleLine lines st))
  = last (map Some (map (fun l => trim (slice 3 l)) (filter isIdLine lines)))
      (id (result st)).
Proof.
  revert st; induction lines as [|l lines IH]; intro st; [reflexivity|].
  simpl fold_left. rewrite IH, handleLine_by_prefix. simpl filter.
  destruct (isIdLine l) eqn:E.
  - destruct (id_not_data_event l E) as [-> ->].
    cbn [map id result set_id]. rewrite last_cons_default. reflexivity.
  - destruct (isDataPrefixed l); [reflexivity|].
    destruct (isEventLine l); [reflexivity|].
    destruct (retryValue l); reflexivity.
Qed.

Lemma loop_retry (lines : list jsstring) (st : LoopState) :
  retry (result (fold_left handleLine lines st))
  = last (map Some (retryValues lines)) (retry (result st)).
Proof.
  revert st; induction lines as [|l lines IH]; intro st; [reflexivity|].
  simpl fold_left. rewrite IH, handleLine_by_prefix.
  unfold retryValues. simpl flat_map.
  destruct (retryValue l) as [n|] eqn:E.
  - destruct (retry_not_others l (retryValue_line l n E)) as (-> & -> & ->).
    cbn [map app retry result set_retry]. rewrite last_cons_default.
    reflexivity.
  - destruct (isDataPrefixed l); [reflexivity|].
    destruct (isEventLine l); [reflexivity|].
    destruct (isIdLine l); reflexivity.
Qed.

Lemma finishEvent_fields (st : LoopState) :
  eventField (finishEvent st) = event (result st)
  /\ idField (finishEvent st) = id (result st)
  /\ retryField (finishEvent st) = retry (result st).
Proof.
  unfold finishEvent, hasKeys, set_data.
  destruct (result st) as [e d i r].
  destruct (0 <? List.length (dataLines st))%nat; simpl;
    destruct e, d, i, r; repeat split.
Qed.

(** X1. Of several [event:] lines of a block the last one gives the event
    type, and likewise for [id:]; each value is the line less its prefix,
    trimmed. The retry field is the value of the last [retry:] line that
    [parseInt] accepts. A field with no such line is absent. *)
Theorem last_line_wins (block : jsstring) :
  let lines := split block nl in
  eventField (parseSSEEvent block)
  = lastOpt (map (fun l => trim (slice 6 l)) (filter isEventLine lines))
  /\ idField (parseSSEEvent block)
     = lastOpt (map (fun l => trim (slice 3 l)) (filter isIdLine lines))
  /\ retryField (parseSSEEvent block) = lastOpt (retryValues lines).
Proof.
  unfold parseSSEEvent, parseLines, lastOpt. simpl.
  destruct (finishEvent_fields (fold_left handleLine (split block nl) loopStart))
    as (-> & -> & ->).
  rewrite loop_event, loop_id, loop_retry. repeat split.
Qed.

Lemma handleLine_anyField (st : LoopState) (l : jsstring) :
  anyField (handleLine st l) = anyField st || setsField l.
Proof.
  rewrite handleLine_by_prefix. unfold anyField, setsField, hasKeys.
  destruct (isDataPrefixed l).
  - simpl. rewrite length_app. simpl.
    replace (0 <? List.length (dataLines st) + 1)%nat with true
      by (symmetry; apply Nat.ltb_lt; lia).
    rewrite !orb_true_r. reflexivity.
  - destruct (isEventLine l).
    + simpl. rewrite orb_true_r. reflexivity.
    + destruct (isIdLine l).
      * simpl. rewrite orb_true_r.
        destruct (event (result st)), (data (result st)); reflexivity.
      * destruct (retryValue l); simpl.
        -- rewrite orb_true_r.
           destruct (event (result st)), (data (result st)), (id (result st));
             reflexivity.
        -- rewrite orb_false_r. reflexivity.
Qed.

Lemma loop_anyField (lines : list jsstring) (st : LoopState) :
  anyField (fold_left handleLine lines st)
  = anyField st || existsb setsField lines.
Proof.
  revert st; induction lines as [|l lines IH]; intro st; simpl.
  - rewrite orb_false_r. reflexivity.
  - rewrite IH, handleLine_anyField, orb_assoc. reflexivity.
Qed.

Lemma finishEvent_none (st : LoopState) :
  finishEvent st = None <-> anyField st = false.
Proof.
  unfold finishEvent, anyField, hasKeys, set_data.
  destruct (0 <? List.length (dataLines st))%nat; simpl.
  - rewrite orb_true_r.
    destruct (event (result st)); split; discriminate.
  - rewrite orb_false_r.
    destruct (event (result st)), (data (result st)), (id (result st)),
      (retry (result st)); split; intro H; try reflexivity; discriminate H.
Qed.

(** X2. The frame parser gives no event exactly when no line of the block
    sets a field: no line starts with [data:], [event:] or [id:], and no
    [retry:] line has a content that [parseInt] accepts. Comments, unknown
    fields and empty lines alone give null. *)
Theorem null_iff_no_field_line (block : jsstring) :
  parseSSEEvent block = None
  <-> existsb setsField (split block nl) = false.
Proof.
  unfold parseSSEEvent, parseLines.
  rewrite finishEvent_none, loop_anyField. reflexivity.
Qed.

(** X3. A line that starts with none of the four prefixes (a comment, an
    unknown field, an empty line) changes nothing, wherever it stands in the
    block: the event is the one of the other lines. *)
Theorem ignored_line_changes_nothing
  (block : jsstring) (before after : list jsstring) (l : jsstring) :
  split block nl = before ++ l :: after ->
  isIgnoredLine l = true ->
  parseSSEEvent block = parseLines (before ++ after).
Proof.
  intros Hsplit Hl. unfold parseSSEEvent, parseLines.
  rewrite Hsplit, !fold_left_app. simpl fold_left.
  rewrite handleLine_by_prefix.
  unfold isIgnoredLine in Hl. apply negb_true_iff in Hl.
  apply orb_false_elim in Hl as [Hl Hr].
  apply orb_false_elim in Hl as [Hl Hi].
  apply orb_false_elim in Hl as [Hd He].
  unfold retryValue. rewrite Hd, He, Hi, Hr. reflexivity.
Qed.

Lemma ignored_line_changes_nothing_witness :
  parseSSEEvent (lit ": ping" ++ nl ++ lit "data: x" ++ nl ++ lit "foo: bar")
  = parseLines ([lit ": ping"; lit "data: x"] ++ []).
Proof.
  exact (ignored_line_changes_nothing
           (lit ": ping" ++ nl ++ lit "data: x" ++ nl ++ lit "foo: bar")
           [lit ": ping"; lit "data: x"] [] (lit "foo: bar")
           eq_refl eq_refl).
Defined.

(** ** The two splitters side by side *)

Lemma trimStart_nil (s : jsstring) :
  trimStart s = [] -> forallb isWhiteSpace s = true.
Proof.
  induction s as [|c s IH]; [reflexivity|].
  simpl. destruct (isWhiteSpace c); [exact IH|discriminate].
Qed.

Lemma forallb_rev_ws (s : jsstring) :
  forallb isWhiteSpace (rev s) = true -> forallb isWhiteSpace s = true.
Proof.
  rewrite !forallb_forall. intros H x Hx. apply H, in_rev.
  rewrite rev_involutive. exact Hx.
Qed.

(** A text that is empty once trimmed is white space throughout. *)
Lemma blank_all_white (s : jsstring) :
  truthy (trim s) = false -> forallb isWhiteSpace s = true.
Proof.
  intro H. unfold trim, trimEnd in H.
  assert (E : trimStart (rev (trimStart s)) = []).
  { destruct (trimStart (rev (trimStart s))) as [|c u] eqn:E; [reflexivity|].
    simpl in H. destruct (rev u ++ [c]) eqn:E'; [|discriminate H].
    destruct (rev u); discriminate E'. }
  apply trimStart_nil, forallb_rev_ws in E.
  apply trimStart_nil.
  pose proof (trimStart_clean s) as C.
  destruct (trimStart s) as [|c u]; [reflexivity|].
  simpl in E, C. destruct (isWhiteSpace c); discriminate.
Qed.

Lemma white_line_ignored (l : jsstring) :
  forallb isWhiteSpace l = true -> setsField l = false.
Proof.
  intro H.
  assert (P : forall (a : N) (p : jsstring),
             isWhiteSpace a = false -> startsWith l (a :: p) = false).
  { intros a p Ha. destruct l as [|c r]; [reflexivity|].
    simpl in H. apply andb_prop in H as [Hc _].
    cbn [startsWith]. destruct (N.eqb_spec a c) as [->|]; [congruence|reflexivity]. }
  unfold setsField, retryValue, isDataPrefixed, isEventLine, isIdLine,
    isRetryLine.
  rewrite (P 100%N (lit "ata:") eq_refl : startsWith l (lit "data:") = false).
  rewrite (P 101%N (lit "vent:") eq_refl : startsWith l (lit "event:") = false).
  rewrite (P 105%N (lit "d:") eq_refl : startsWith l (lit "id:") = false).
  rewrite (P 114%N (lit "etry:") eq_refl : startsWith l (lit "retry:") = false).
  reflexivity.
Qed.

Lemma split_all_white (s : jsstring) :
  forallb isWhiteSpace s = true ->
  existsb setsField (split s nl) = false.
Proof.
  induction s as [s C|s a b C IH] using (split_ind nl nl_nonempty); intro H.
  - rewrite (split_none nl _ C). simpl.
    rewrite (white_line_ignored s H). reflexivity.
  - rewrite (split_found nl nl_nonempty _ _ _ C).
    apply (cut_decompose nl) in C. subst s.
    rewrite !forallb_app in H.
    apply andb_prop in H as [Ha H]. apply andb_prop in H as [_ Hb].
    simpl. rewrite (white_line_ignored a Ha), (IH Hb). reflexivity.
Qed.

(** A segment that is blank once trimmed has no event in it. *)
Lemma blank_segment_no_event (seg : jsstring) :
  truthy (trim seg) = false -> parseSSEEvent seg = None.
Proof.
  intro H. unfold parseSSEEvent, parseLines.
  apply finishEvent_none. rewrite loop_anyField.
  rewrite (split_all_white seg (blank_all_white seg H)). reflexivity.
Qed.

Lemma chunkStep_payloads (seg : jsstring) :
  chunkStep [] seg = payloads (segmentEvents seg).
Proof.
  unfold segmentEvents. destruct (truthy (trim seg)) eqn:E.
  - unfold chunkStep, payloads.
    destruct (parseSSEEvent seg) as [e|]; [|reflexivity].
    simpl. rewrite app_nil_r. reflexivity.
  - unfold chunkStep. rewrite (blank_segment_no_event seg E). reflexivity.
Qed.

Lemma payloads_flat_map (segs : list jsstring) :
  payloads (flat_map segmentEvents segs)
  = flat_map (fun seg => chunkStep [] seg) segs.
Proof.
  unfold payloads. induction segs as [|seg segs IH]; [reflexivity|].
  simpl. rewrite flat_map_app, IH. f_equal.
  symmetry. apply chunkStep_payloads.
Qed.

Lemma flat_map_filter_truthy (segs : list jsstring) :
  flat_map (fun seg => chunkStep [] seg) (filter truthy segs)
  = flat_map (fun seg => chunkStep [] seg) segs.
Proof.
  induction segs as [|seg segs IH]; [reflexivity|].
  simpl. destruct seg as [|c seg]; simpl; rewrite IH; reflexivity.
Qed.

(** X4. On any text the stateless splitter calls its callback with the
    non-empty data of exactly the events that the stateful parser emits
    when it is fed the text in one chunk, followed by the one of the
    segment the stateful parser keeps in its buffer. The two differ only by
    that last, open segment. *)
Theorem stateless_is_stateful_plus_buffer (T : jsstring) :
  let p := feed createSSEParser T in
  parseSSEChunk T = payloads (emitted p ++ segmentEvents (buffer p)).
Proof.
  unfold feed. rewrite parserCall_events. simpl.
  unfold parseSSEChunk. rewrite chunkStep_log. simpl.
  rewrite flat_map_filter_truthy.
  rewrite <- payloads_flat_map.
  rewrite (app_removelast_last (l := split T nn) [])
    by (apply split_nonempty; exact nn_nonempty).
  rewrite flat_map_app. simpl flat_map at 2. rewrite app_nil_r.
  rewrite removelast_last, last_last. reflexivity.
Qed.

(** X5. As long as the chunks fed so far hold no ["\n\n"] (a stream whose
    lines end in CR LF, for one), the stateful parser emits nothing and its
    buffer is everything it was fed. *)
Theorem no_separator_no_event (chunks : list jsstring) :
  includes (List.concat chunks) nn = false ->
  feedAll createSSEParser chunks
  = {| buffer := List.concat chunks; emitted := [] |}.
Proof.
  intro H. rewrite feedAll_concat by reflexivity. simpl.
  unfold includes in H.
  destruct (cut nn (List.concat chunks)) eqn:C; [discriminate H|].
  rewrite (split_none nn _ C). reflexivity.
Qed.

Lemma no_separator_no_event_witness :
  feedAll createSSEParser
    [lit "data: a" ++ [13%N; 10%N]; [13%N; 10%N] ++ lit "data: b" ++ [13%N; 10%N; 13%N; 10%N]]
  = {| buffer := List.concat
         [lit "data: a" ++ [13%N; 10%N];
          [13%N; 10%N] ++ lit "data: b" ++ [13%N; 10%N; 13%N; 10%N]];
       emitted := [] |}.
Proof.
  exact (no_separator_no_event
           [lit "data: a" ++ [13%N; 10%N];
            [13%N; 10%N] ++ lit "data: b" ++ [13%N; 10%N; 13%N; 10%N]]
           eq_refl).
Defined.

(** X17. The stateless splitter works block by block: for a text [a] in
    which every line break is followed by something other than a line break
    (so [a] has no blank line and does not end in a line break), the calls
    on [a], a blank line and [b] are the calls on [a] followed by the calls
    on [b]. *)
Theorem splitter_block_by_block (a b : jsstring) :
  tidy a = true ->
  parseSSEChunk (a ++ nn ++ b) = parseSSEChunk a ++ parseSSEChunk b.
Proof.
  intro H. unfold parseSSEChunk.
  rewrite !chunkStep_log, !app_nil_l, !flat_map_filter_truthy.
  rewrite (split_found nn nn_nonempty _ _ _ (tidy_cut_nn a b H)).
  rewrite (split_none nn _ (tidy_cut_none a H)).
  cbn [flat_map]. rewrite app_nil_r. reflexivity.
Qed.

Lemma splitter_block_by_block_witness :
  parseSSEChunk ((lit "data: x" ++ nl ++ lit "data: y") ++ nn
                 ++ lit "event: e" ++ nn ++ lit "data: z")
  = parseSSEChunk (lit "data: x" ++ nl ++ lit "data: y")
    ++ parseSSEChunk (lit "event: e" ++ nn ++ lit "data: z").
Proof.
  exact (splitter_block_by_block
           (lit "data: x" ++ nl ++ lit "data: y")
           (lit "event: e" ++ nn ++ lit "data: z") eq_refl).
Defined.

(** ** Invariants of the stream controller *)

Section ControllerInvariants.
Context {TD : TextDecoder}.

Ltac step_unfold :=
  unfold step, afterResponse, catchRequest, catchRead, makeRequest,
    cancelRequest, readStreamChunk, cleanup, emitIf.

Ltac step_split :=
  repeat match goal with
         | |- context [let '(_, _) := ?p in _] => destruct p
         | |- context [match phase ?s with _ => _ end] =>
             is_var s; destruct (phase s) eqn:?; cbn
         | |- context [match opt_signal ?o with _ => _ end] =>
             destruct (opt_signal o) eqn:?; cbn
         | |- context [match message ?e with _ => _ end] =>
             destruct (message e) eqn:?; cbn
         | |- context [if ?b then _ else _] => destruct b eqn:?; cbn
         end.

Ltac count_up :=
  unfold count in *; rewrite ?filter_app, ?length_app; cbn; try lia.

(** An invariant of the steps holds all along a session. *)
Lemma session_invariant (cfg : Config) (P : State -> Prop) :
  P (start cfg) ->
  (forall s i, P s -> P (step cfg s i)) ->
  forall inputs, P (session cfg inputs).
Proof.
  intros H0 Hstep inputs. unfold session, run.
  generalize (start cfg) H0. induction inputs as [|i inputs IH]; intros s Hs.
  - exact Hs.
  - simpl. apply IH, Hstep, Hs.
Qed.

Lemma step_listenerBalance (cfg : Config) (s : State) (i : Input) :
  listenerBalance s -> listenerBalance (step cfg s i).
Proof.
  unfold listenerBalance. intros [H1 H2].
  destruct i; step_unfold; cbn; step_split;
    repeat match goal with
           | E : listener s = _ |- _ => rewrite E in H2
           end;
    split; count_up.
Qed.

(** X6. In every session [addEventListener] is called at most once, and
    [removeEventListener] at most once and only after it; the handler is
    still registered exactly when it was added and not removed. *)
Theorem listener_added_and_removed_once (cfg : Config) (inputs : list Input) :
  let s := session cfg inputs in
  count isAddListener (log s) <= 1
  /\ count isRemoveListener (log s) <= count isAddListener (log s)
  /\ (listener s = true
      <-> count isAddListener (log s) = 1
          /\ count isRemoveListener (log s) = 0).
Proof.
  assert (H : listenerBalance (session cfg inputs)).
  { apply session_invariant.
    - unfold listenerBalance, start, makeRequest.
      destruct (opt_signal (options cfg)) as [[|]|]; cbn; split;
        reflexivity || lia.
    - intros s i. apply step_listenerBalance. }
  destruct H as [H1 H2]. cbv zeta.
  destruct (listener (session cfg inputs));
    repeat split; try lia; intros; try discriminate; lia.
Qed.

Lemma step_requestBudget (cfg : Config) (s : State) (i : Input) :
  requestBudget cfg s -> requestBudget cfg (step cfg s i).
Proof.
  unfold requestBudget. intros (Ha & Ht & Hi & Hd).
  destruct i; step_unfold; cbn; step_split; try congruence;
    repeat match goal with
           | E : (_ <? _)%Z = true |- _ => apply Z.ltb_lt in E
           | E : (_ <? _)%Z = false |- _ => apply Z.ltb_ge in E
           | E : phase s = _ |- _ => rewrite E in Hi; clear E
           end;
    cbn in Hi;
    (split; [lia|]); (split; [count_up|]); (split; [count_up|]);
    rewrite ?forallb_app, ?Hd; cbn; rewrite ?Z.eqb_refl; reflexivity.
Qed.

(** X7. Whatever the outside does, a session sets one retry timer per
    counted attempt, never more than [options.retry] of them, each to
    [retryDelay]; and it issues at most one request more than it has set
    timers: never more than [retry + 1] requests. *)
Theorem requests_within_budget (cfg : Config) (inputs : list Input) :
  let s := session cfg inputs in
  count isInstance (log s) <= count isSetTimeout (log s) + 1
  /\ count isSetTimeout (log s) <= Z.to_nat (maxRetries cfg)
  /\ forallb (timerIs (retryDelay cfg)) (log s) = true.
Proof.
  assert (H : requestBudget cfg (session cfg inputs)).
  { apply session_invariant.
    - unfold requestBudget, start, makeRequest.
      destruct (opt_signal (options cfg)) as [[|]|]; cbn;
        repeat split; try reflexivity; lia.
    - intros s i. apply step_requestBudget. }
  destruct H as (Ha & Ht & Hi & Hd). cbv zeta.
  split; [|split; [|exact Hd]].
  - destruct (phase (session cfg inputs)); lia.
  - lia.
Qed.

Ltac log_ext :=
  eexists; split;
  [ rewrite <- ?app_assoc; first [reflexivity | symmetry; apply app_nil_r]
  | repeat split ].

Lemma run_cons (cfg : Config) (s : State) (i : Input) (l : list Input) :
  run cfg s (i :: l) = run cfg (step cfg s i) l.
Proof. reflexivity. Qed.

Lemma session_app (cfg : Config) (pre post : list Input) :
  session cfg (pre ++ post) = run cfg (session cfg pre) post.
Proof. apply run_app. Qed.

(** *** The cancel function before a stream is obtained *)

Lemma step_noReaderYet (cfg : Config) (s : State) (i : Input) :
  noReaderYet s -> noReaderYet (step cfg s i).
Proof.
  unfold noReaderYet, notReading. intro H.
  destruct (reader s) eqn:R.
  - clear H. destruct i; step_unfold; cbn; step_split;
      rewrite ?R; cbn; intro Hr; try discriminate Hr; congruence.
  - destruct (H eq_refl) as [Hp Hc]. clear H.
    destruct i; step_unfold; cbn; step_split; try contradiction;
      rewrite ?R; cbn; intro Hr; try discriminate Hr; try contradiction;
      try congruence;
      (split; [try exact I; try assumption; try congruence|]);
      unfold count in *; rewrite ?filter_app, ?length_app; cbn; lia.
Qed.

Lemma session_noReaderYet (cfg : Config) (inputs : list Input) :
  noReaderYet (session cfg inputs).
Proof.
  apply session_invariant.
  - unfold noReaderYet, notReading, start, makeRequest.
    destruct (opt_signal (options cfg)) as [[|]|]; cbn; intros _;
      split; try exact I; reflexivity.
  - intros s i. apply step_noReaderYet.
Qed.




(** *** After the abort *)

Lemma step_aborted (cfg : Config) (s : State) (i : Input) :
  aborted s = true ->
  aborted (step cfg s i) = true
  /\ exists l, log (step cfg s i) = log s ++ l
               /\ count isInstance l = 0 /\ count isSetTimeout l = 0.
Proof.
  intro Ha.
  destruct i; step_unfold; cbn; step_split; try congruence;
    try match goal with
        | E : _ || aborted s = false |- _ =>
            rewrite Ha, orb_true_r in E; discriminate E
        end;
    (split; [assumption || reflexivity|log_ext]).
Qed.

Lemma run_aborted (cfg : Config) (post : list Input) (s : State) :
  aborted s = true ->
  aborted (run cfg s post) = true
  /\ count isInstance (log (run cfg s post)) = count isInstance (log s)
  /\ count isSetTimeout (log (run cfg s post)) = count isSetTimeout (log s).
Proof.
  revert s; induction post as [|i post IH]; intros s Ha.
  - repeat split. exact Ha.
  - rewrite run_cons.
    destruct (step_aborted cfg s i Ha) as (Ha1 & l & Hl & Hi & Ht).
    destruct (IH _ Ha1) as (Ha2 & Hi2 & Ht2).
    split; [exact Ha2|].
    rewrite Hi2, Ht2, Hl, !count_app, Hi, Ht. lia.
Qed.

(** X8. Once the internal token is triggered, by the cancel function or
    through the external signal, the session issues no further request and
    sets no further timer, whatever the outside does next; the token stays
    triggered. *)
Theorem no_request_after_abort (cfg : Config) (pre post : list Input) :
  aborted (session cfg pre) = true ->
  aborted (session cfg (pre ++ post)) = true
  /\ count isInstance (log (session cfg (pre ++ post)))
     = count isInstance (log (session cfg pre))
  /\ count isSetTimeout (log (session cfg (pre ++ post)))
     = count isSetTimeout (log (session cfg pre)).
Proof.
  intro Ha. rewrite session_app. apply run_aborted, Ha.
Qed.

(** *** After the end of the task *)

Lemma step_idle (cfg : Config) (s : State) (i : Input) :
  phase s = Finished -> listener s = false -> notCancel i = true ->
  step cfg s i = s.
Proof.
  intros Hp Hl Hi. destruct i; try discriminate Hi;
    unfold step; rewrite ?Hp; try reflexivity.
  rewrite Hl. reflexivity.
Qed.

Lemma run_idle (cfg : Config) (post : list Input) (s : State) :
  phase s = Finished -> listener s = false ->
  forallb notCancel post = true ->
  run cfg s post = s.
Proof.
  intros Hp Hl. induction post as [|i post IH]; intro H; [reflexivity|].
  simpl in H. apply andb_prop in H as [Hi H].
  rewrite run_cons, (step_idle cfg s i Hp Hl Hi). exact (IH H).
Qed.

(** X9. When the external signal is already aborted at the call of
    [stream], no request is ever issued; and unless the caller calls the
    cancel function the only thing the session ever does is the one
    [controller.abort()] of the start: no callback is called. *)
Theorem aborted_signal_issues_nothing (cfg : Config) :
  opt_signal (options cfg) = Some true ->
  (forall inputs, count isInstance (log (session cfg inputs)) = 0)
  /\ (forall inputs, forallb notCancel inputs = true ->
        log (session cfg inputs) = [EAbort]
        /\ phase (session cfg inputs) = Finished).
Proof.
  intro Hs.
  assert (E : start cfg
              = {| aborted := true; reader := false; listener := false;
                   attempts := 0; phase := Finished; log := [EAbort] |})
    by (unfold start; rewrite Hs; reflexivity).
  split.
  - intro inputs. unfold session.
    destruct (run_aborted cfg inputs (start cfg)) as (_ & Hi & _);
      [rewrite E; reflexivity|].
    rewrite Hi, E. reflexivity.
  - intros inputs Hn. unfold session.
    rewrite run_idle; rewrite ?E; try reflexivity; try exact Hn.
    split; reflexivity.
Qed.

Lemma strEq_refl (a : jsstring) : strEq a a = true.
Proof. unfold strEq. destruct (list_eq_dec N.eq_dec a a); congruence. Qed.

Lemma step_finished (cfg : Config) (s : State) (i : Input) :
  phase s = Finished ->
  phase (step cfg s i) = Finished
  /\ exists l, log (step cfg s i) = log s ++ l /\ forallb afterEnd l = true.
Proof.
  intro Hp.
  destruct i; unfold step; rewrite ?Hp;
    try (split; [first [exact Hp | reflexivity]|exists []; rewrite app_nil_r; split; reflexivity]).
  - unfold cancelRequest, cleanup, emitIf. cbn. step_split;
      (split; [first [exact Hp | reflexivity]|log_ext]); cbn; rewrite ?strEq_refl; reflexivity.
  - destruct (listener s); cbn; (split; [first [exact Hp | reflexivity]|log_ext]).
Qed.

(** X10. Once the task has ended (stream complete, error reported, silent
    exit), it stays ended: nothing that happens afterwards issues a
    request, sets a timer, takes a reader or calls [onChunk] or
    [onComplete], and the only call of [onError] that can still come is the
    one of the cancel function. *)
Theorem ended_task_stays_ended (cfg : Config) (pre post : list Input) :
  phase (session cfg pre) = Finished ->
  phase (session cfg (pre ++ post)) = Finished
  /\ exists l, log (session cfg (pre ++ post)) = log (session cfg pre) ++ l
               /\ forallb afterEnd l = true.
Proof.
  rewrite session_app. generalize (session cfg pre) as s.
  induction post as [|i post IH]; intros s Hp.
  - split; [exact Hp|]. exists []. rewrite app_nil_r. split; reflexivity.
  - rewrite run_cons.
    destruct (step_finished cfg s i Hp) as (Hp1 & l1 & Hl1 & Ha1).
    destruct (IH _ Hp1) as (Hp2 & l2 & Hl2 & Ha2).
    split; [exact Hp2|]. exists (l1 ++ l2).
    rewrite Hl2, Hl1, <- app_assoc, forallb_app, Ha1, Ha2.
    split; reflexivity.
Qed.

(** *** The ending of a session *)

Lemma step_ended_quietly (cfg : Config) (s : State) (i : Input) :
  phase s = Finished -> notCancel i = true ->
  phase (step cfg s i) = Finished
  /\ exists l, log (step cfg s i) = log s ++ l /\ forallb isAbort l = true.
Proof.
  intros Hp Hi.
  destruct i; try discriminate Hi; unfold step; rewrite ?Hp;
    try (split; [first [exact Hp | reflexivity]
                |exists []; rewrite app_nil_r; split; reflexivity]).
  destruct (listener s); cbn;
    (split; [first [exact Hp | reflexivity]|log_ext]).
Qed.

Lemma run_ended_quietly (cfg : Config) (post : list Input) (s : State) :
  phase s = Finished -> forallb notCancel post = true ->
  exists l, log (run cfg s post) = log s ++ l /\ forallb isAbort l = true.
Proof.
  revert s; induction post as [|i post IH]; intros s Hp Hn.
  - exists []. rewrite app_nil_r. split; reflexivity.
  - simpl in Hn. apply andb_prop in Hn as [Hi Hn]. rewrite run_cons.
    destruct (step_ended_quietly cfg s i Hp Hi) as (Hp1 & l1 & Hl1 & Ha1).
    destruct (IH _ Hp1 Hn) as (l2 & Hl2 & Ha2).
    exists (l1 ++ l2).
    rewrite Hl2, Hl1, <- app_assoc, forallb_app, Ha1, Ha2.
    split; reflexivity.
Qed.

Lemma abort_only_counts (l : list Effect) :
  forallb isAbort l = true ->
  count isOnError l = 0 /\ count isOnComplete l = 0.
Proof.
  unfold count. induction l as [|e l IH]; intro H; [split; reflexivity|].
  simpl in H. apply andb_prop in H as [He Hl].
  destruct (IH Hl) as [H1 H2].
  destruct e; try discriminate He. simpl. split; assumption.
Qed.

Lemma step_oneEnding (cfg : Config) (s : State) (i : Input) :
  notCancel i = true -> oneEnding s -> oneEnding (step cfg s i).
Proof.
  unfold oneEnding. intros Hi [H0|[H1 Hp]].
  - destruct i; try discriminate Hi; step_unfold; cbn; step_split;
      try congruence;
      first [ left; unfold count in *;
              rewrite ?filter_app, ?length_app; cbn; lia
            | right; split;
              [ unfold count in *;
                rewrite ?filter_app, ?length_app; cbn; lia
              | reflexivity ] ].
  - right.
    destruct (step_ended_quietly cfg s i Hp Hi) as (Hp1 & l & Hl & Ha).
    destruct (abort_only_counts l Ha) as [He Hc].
    split; [|exact Hp1]. rewrite Hl, !count_app, He, Hc. lia.
Qed.

(** While every callback returns and every thrown value is an object: in a
    session in which the cancel function is not called, the task calls at
    most one of [onComplete] and [onError], at most once, and when it has
    called one it has ended. *)
Lemma one_ending_without_cancel (cfg : Config) (inputs : list Input) :
  forallb notCancel inputs = true ->
  let s := session cfg inputs in
  count isOnError (log s) + count isOnComplete (log s) <= 1
  /\ (count isOnError (log s) + count isOnComplete (log s) = 1 ->
      phase s = Finished).
Proof.
  intro Hn.
  assert (H : oneEnding (session cfg inputs)).
  { unfold session, run.
    assert (H0 : oneEnding (start cfg)).
    { left. unfold start, makeRequest.
      destruct (opt_signal (options cfg)) as [[|]|]; reflexivity. }
    revert Hn H0. generalize (start cfg).
    induction inputs as [|i inputs IH]; intros s Hn Hs; [exact Hs|].
    simpl in Hn. apply andb_prop in Hn as [Hi Hn].
    simpl. apply (IH _ Hn). apply step_oneEnding; assumption. }
  cbv zeta. destruct H as [H0|[H1 Hp]].
  - split; [lia|]. intro H. lia.
  - split; [lia|]. intro. exact Hp.
Qed.

Lemma step_listenerNeedsSignal (cfg : Config) (s : State) (i : Input) :
  listenerNeedsSignal cfg s -> listenerNeedsSignal cfg (step cfg s i).
Proof.
  unfold listenerNeedsSignal. intros H Hl. apply H. revert Hl.
  destruct i; step_unfold; cbn; step_split; try congruence;
    intro Hl; first [exact Hl | discriminate Hl | congruence].
Qed.

Lemma session_listenerNeedsSignal (cfg : Config) (inputs : list Input) :
  listenerNeedsSignal cfg (session cfg inputs).
Proof.
  apply session_invariant.
  - unfold listenerNeedsSignal, start, makeRequest.
    destruct (opt_signal (options cfg)) as [[|]|]; cbn;
      intro H; discriminate.
  - intros s i. apply step_listenerNeedsSignal.
Qed.

(** X13. A request rejected as cancelled (its error is named
    [CanceledError] or has the code [ERR_CANCELED]) ends the session
    without a word, even when retries are left: unless the cancel function
    is called, all that can still be done is the [controller.abort()] of
    the external signal. *)
Theorem cancelled_request_ends_silently
  (cfg : Config) (pre post : list Input) (e : JsError) :
  phase (session cfg pre) = AwaitResponse ->
  isCancellation e = true ->
  forallb notCancel post = true ->
  exists l,
    log (session cfg (pre ++ Rejected e :: post)) = log (session cfg pre) ++ l
    /\ forallb isAbort l = true.
Proof.
  intros Hp He Hn. rewrite session_app, run_cons.
  set (s := session cfg pre) in *.
  assert (E : step cfg s (Rejected e) = setPhase Finished s).
  { unfold step. rewrite Hp. unfold catchRequest.
    unfold isCancellation in He. rewrite He. reflexivity. }
  rewrite E.
  apply (run_ended_quietly cfg post (setPhase Finished s)); [reflexivity|exact Hn].
Qed.

(** X18. The cancel function does the same in every state of the
    session, ended or not: it removes the listener if it is held, triggers
    the token, releases the reader if there is one, and calls [onError]
    with the message of the manual cancellation, once per call; when
    [releaseLock] throws, the error goes to the console and [onError] is
    not called. It never changes what the task is waiting for. *)
Theorem cancel_in_any_state (cfg : Config) (pre : list Input) (t : bool) :
  let s := session cfg pre in
  let s' := session cfg (pre ++ [Cancel t]) in
  log s'
  = log s
    ++ (if listener s then [ERemoveListener] else [])
    ++ [EAbort]
    ++ (if reader s && t
        then [EConsoleError (lit "Failed to cancel stream request:")]
        else (if reader s then [EReleaseLock] else [])
             ++ (if onError cfg then [EOnError cancelledMsg] else []))
  /\ phase s' = phase s /\ aborted s' = true /\ listener s' = false.
Proof.
  cbv zeta. rewrite session_app.
  pose proof (session_listenerNeedsSignal cfg pre) as Hsig.
  set (s := session cfg pre) in *.
  assert (E : run cfg s [Cancel t] = cancelRequest cfg t s)
    by (unfold run, fold_left, step; destruct (phase s); reflexivity).
  rewrite E. unfold cancelRequest, cleanup, emitIf, listenerNeedsSignal in *.
  destruct (listener s) eqn:L.
  - destruct (opt_signal (options cfg)); [|exfalso; apply Hsig; reflexivity].
    cbn. destruct (reader s), t, (onError cfg); cbn;
      rewrite <- ?app_assoc; repeat split.
  - destruct (opt_signal (options cfg)); cbn; rewrite ?L;
      destruct (reader s), t, (onError cfg); cbn;
      rewrite <- ?app_assoc; rewrite ?L; repeat split.
Qed.

End ControllerInvariants.

(** ** The invariants on sample sessions *)

(** The cancel function called while the first read is pending:
    [releaseLock()] rejects that read with a [TypeError], and the [catch] of
    [readStreamChunk] reports it. *)
Example cancel_during_first_read_released :
  log (@session asciiDecoder (withOptions None None)
         [Fulfilled streamResponse; Cancel false;
          ReadFailed releasedReaderError])
  = [EInstance; EGetReader; EAbort; EReleaseLock; EOnError cancelledMsg;
     EOnError (lit "Read stream failed: Releasing Default reader")].
Proof. reflexivity. Qed.


(** Nothing keeps the cancel function from reporting again when it is
    called again, and nothing tests the token once a response has arrived:
    a stream that arrives after the cancel is read. *)
Example cancel_twice_reports_twice :
  log (@session asciiDecoder (withOptions None None)
         [Cancel false; Cancel false])
  = [EInstance; EAbort; EOnError cancelledMsg;
     EAbort; EOnError cancelledMsg].
Proof. reflexivity. Qed.

Example stream_after_cancel_is_read :
  log (@session asciiDecoder (withOptions None None)
         [Cancel false; Fulfilled streamResponse;
          ReadChunk [Byte.x68; Byte.x69]])
  = [EInstance; EAbort; EOnError cancelledMsg; EGetReader;
     EOnChunk (lit "hi")].
Proof. reflexivity. Qed.


(** The cancel function called while the second request is pending: the
    rejection of that request is neither retried nor reported. *)
Example cancel_during_pending_request :
  log (@session asciiDecoder (withOptions (Some 2%Z) None)
         [Rejected networkError; TimerFired; Cancel false;
          Rejected networkError; TimerFired])
  = [EInstance; ESetTimeout 1000; EInstance; EAbort; EOnError cancelledMsg].
Proof. reflexivity. Qed.

Lemma no_request_after_abort_witness :
  aborted (@session asciiDecoder (withSignal false)
             ([SignalAbort] ++ [Rejected networkError; TimerFired])) = true
  /\ count isInstance
       (log (@session asciiDecoder (withSignal false)
               ([SignalAbort] ++ [Rejected networkError; TimerFired])))
     = count isInstance (log (@session asciiDecoder (withSignal false) [SignalAbort]))
  /\ count isSetTimeout
       (log (@session asciiDecoder (withSignal false)
               ([SignalAbort] ++ [Rejected networkError; TimerFired])))
     = count isSetTimeout (log (@session asciiDecoder (withSignal false) [SignalAbort])).
Proof.
  exact (@no_request_after_abort asciiDecoder (withSignal false)
           [SignalAbort] [Rejected networkError; TimerFired] eq_refl).
Defined.

Lemma aborted_signal_issues_nothing_witness :
  log (@session asciiDecoder (withSignal true)
         [Fulfilled streamResponse; TimerFired; SignalAbort]) = [EAbort]
  /\ phase (@session asciiDecoder (withSignal true)
              [Fulfilled streamResponse; TimerFired; SignalAbort]) = Finished.
Proof.
  exact (proj2 (@aborted_signal_issues_nothing asciiDecoder (withSignal true)
                  eq_refl)
           [Fulfilled streamResponse; TimerFired; SignalAbort] eq_refl).
Defined.

Lemma ended_task_stays_ended_witness :
  phase (@session asciiDecoder (withOptions None None)
           ([Fulfilled streamResponse; ReadDone]
            ++ [ReadChunk [Byte.x68]; Cancel false; TimerFired])) = Finished
  /\ exists l,
       log (@session asciiDecoder (withOptions None None)
              ([Fulfilled streamResponse; ReadDone]
               ++ [ReadChunk [Byte.x68]; Cancel false; TimerFired]))
       = log (@session asciiDecoder (withOptions None None)
                [Fulfilled streamResponse; ReadDone]) ++ l
       /\ forallb afterEnd l = true.
Proof.
  exact (@ended_task_stays_ended asciiDecoder (withOptions None None)
           [Fulfilled streamResponse; ReadDone]
           [ReadChunk [Byte.x68]; Cancel false; TimerFired] eq_refl).
Defined.

Lemma cancelled_request_ends_silently_witness :
  exists l,
    log (@session asciiDecoder (withSignal false)
           ([] ++ Rejected canceledError :: [TimerFired; SignalAbort]))
    = log (@session asciiDecoder (withSignal false) []) ++ l
    /\ forallb isAbort l = true.
Proof.
  exact (@cancelled_request_ends_silently asciiDecoder (withSignal false)
           [] [TimerFired; SignalAbort] canceledError
           eq_refl eq_refl eq_refl).
Defined.

(** ** Callbacks that throw, rejections that are not objects *)

Section ThrowingCallbacks.
Context {TD : TextDecoder}.

(** *** While the callbacks return *)

Lemma cleanup_idem (cfg : Config) (s : State) :
  cleanup cfg (cleanup cfg s) = cleanup cfg s.
Proof.
  unfold cleanup. destruct (opt_signal (options cfg)); [|reflexivity].
  destruct (listener s) eqn:L; cbn; rewrite ?L; reflexivity.
Qed.

Lemma next_returning (outs : list Throwing.Outcome) :
  forallb isReturns outs = true -> fst (Throwing.next outs) = Throwing.Returns.
Proof.
  destruct outs as [|[|v] outs]; simpl; intro H;
    try reflexivity; discriminate H.
Qed.

Lemma call_returning (passed : bool) (e : Effect)
  (outs : list Throwing.Outcome) (s : State) :
  forallb isReturns outs = true ->
  exists outs', Throwing.call passed e outs s
                = (emitIf passed e s, Throwing.Returns, outs').
Proof.
  intro H. unfold Throwing.call, emitIf.
  destruct passed; eexists; [rewrite (next_returning _ H)|]; reflexivity.
Qed.

Lemma catchRequest_returning (cfg : Config) (e : JsError)
  (outs : list Throwing.Outcome) (t : Throwing.Task) :
  forallb isReturns outs = true ->
  Throwing.catchRequest cfg (Throwing.Value e) outs t
  = Throwing.setBase (catchRequest cfg e (Throwing.base t)) t.
Proof.
  intro H. unfold Throwing.catchRequest, catchRequest.
  destruct (fieldIs (name e) (lit "CanceledError")
            || fieldIs (code e) (lit "ERR_CANCELED")
            || aborted (Throwing.base t)); [reflexivity|].
  destruct (attempts (Throwing.base t) <? maxRetries cfg)%Z; [reflexivity|].
  match goal with
  | |- context [Throwing.call ?p ?e ?o ?s] =>
      destruct (call_returning p e o s H) as [outs' ->]
  end.
  reflexivity.
Qed.

Lemma unwind_returning (cfg : Config) (k : nat) (e : JsError)
  (outs : list Throwing.Outcome) (s : State) :
  forallb isReturns outs = true ->
  Throwing.unwind cfg k (Throwing.Value e) outs s
  = (if fieldIs (name e) (lit "AbortError") then cleanup cfg s
     else emitIf (onError cfg) (EOnError (readFailedMsg e)) (cleanup cfg s),
     None).
Proof.
  intro H. destruct k; simpl; unfold Throwing.catchRead;
    destruct (fieldIs (name e) (lit "AbortError")); try reflexivity;
    match goal with
    | |- context [Throwing.call ?p ?e ?o ?s] =>
        destruct (call_returning p e o s H) as [outs' ->]
    end; reflexivity.
Qed.

Lemma cancelRequest_returning (cfg : Config) (b : bool)
  (outs : list Throwing.Outcome) (s : State) :
  forallb isReturns outs = true ->
  Throwing.cancelRequest cfg b outs s = cancelRequest cfg b s.
Proof.
  intro H. unfold Throwing.cancelRequest, cancelRequest. cbv zeta.
  match goal with
  | |- context [if ?c then _ else _] => destruct c; [reflexivity|]
  end.
  match goal with
  | |- context [Throwing.call ?p ?e ?o ?s] =>
      destruct (call_returning p e o s H) as [outs' ->]
  end.
  reflexivity.
Qed.

(** A happening whose callbacks return is a step of the controller without
    throwing callbacks. *)
Lemma step_returning (cfg : Config) (t : Throwing.Task)
  (h : Throwing.Happening) :
  returning h = true ->
  Throwing.base (Throwing.step cfg t h)
  = step cfg (Throwing.base t) (plainInput t h).
Proof.
  destruct h as [o outs]. unfold returning. cbn [snd]. intro H.
  unfold Throwing.step, plainInput, step. cbn [fst snd].
  destruct o as [r|[m|e]| |value| |[m|e]|b|];
    destruct (phase (Throwing.base t)) eqn:P; try reflexivity;
    try (destruct (Throwing.frames t); reflexivity);
    try (cbn [Throwing.base Throwing.setBase];
         apply cancelRequest_returning, H).
  - unfold afterResponse. destruct (isStream (readableStream r)); [reflexivity|].
    rewrite (catchRequest_returning _ _ _ _ H). reflexivity.
  - rewrite (catchRequest_returning _ _ _ _ H). reflexivity.
  - destruct (decode d value) as [d' chunk].
    destruct (call_returning (onChunk cfg) (EOnChunk chunk) outs
                (Throwing.base t) H) as [outs' ->].
    reflexivity.
  - destruct (call_returning (onComplete cfg) EOnComplete outs
                (cleanup cfg (Throwing.base t)) H) as [outs' ->].
    reflexivity.
  - destruct (Throwing.frames t) as [|k]; cbn [Throwing.unwind].
    + reflexivity.
    + unfold Throwing.catchRead at 1. rewrite (unwind_returning _ _ _ _ _ H).
      rewrite cleanup_idem. reflexivity.
  - rewrite (unwind_returning _ _ _ _ _ H). unfold catchRead.
    destruct (fieldIs (name e) (lit "AbortError")); reflexivity.
Qed.

Lemma plainInput_notCancel (t : Throwing.Task) (h : Throwing.Happening) :
  notCancel (plainInput t h) = notCancels h.
Proof.
  destruct h as [[r|[m|e]| |value| |[m|e]|b|] outs]; try reflexivity.
  unfold plainInput. cbn [fst]. destruct (Throwing.frames t); reflexivity.
Qed.

(** While the callbacks return, a session is a session of the controller
    without throwing callbacks. *)
Lemma run_returning (cfg : Config) (hs : list Throwing.Happening)
  (t : Throwing.Task) :
  forallb returning hs = true ->
  exists inputs,
    Throwing.base (Throwing.run cfg t hs) = run cfg (Throwing.base t) inputs
    /\ forallb notCancel inputs = forallb notCancels hs.
Proof.
  revert t; induction hs as [|h hs IH]; intros t H.
  - exists []. split; reflexivity.
  - simpl in H. apply andb_prop in H as [Hh Hhs].
    destruct (IH (Throwing.step cfg t h) Hhs) as (inputs & Hrun & Hn).
    exists (plainInput t h :: inputs). split.
    + simpl. rewrite <- (step_returning cfg t h Hh). exact Hrun.
    + simpl. rewrite plainInput_notCancel, Hn. reflexivity.
Qed.

(** X11. While the callbacks return and the cancel function is not called,
    the task calls at most one of [onComplete] and [onError], at most once,
    and when it has called one it has ended; whatever the request and the
    reads are rejected with. *)
Theorem one_ending_when_callbacks_return
  (cfg : Config) (hs : list Throwing.Happening) :
  forallb returning hs = true ->
  forallb notCancels hs = true ->
  let s := Throwing.base (Throwing.session cfg hs) in
  count isOnError (log s) + count isOnComplete (log s) <= 1
  /\ (count isOnError (log s) + count isOnComplete (log s) = 1 ->
      phase s = Finished).
Proof.
  intros Hr Hn.
  destruct (run_returning cfg hs (Throwing.start cfg) Hr) as (inputs & E & Hi).
  rewrite Hn in Hi. unfold Throwing.session. rewrite E.
  exact (one_ending_without_cancel cfg inputs Hi).
Qed.

(** *** What the [catch] blocks leave behind *)

Lemma appendLog_nil (s : State) : appendLog [] s = s.
Proof. destruct s. unfold appendLog. cbn. rewrite app_nil_r. reflexivity. Qed.

Lemma appendLog_app (l1 l2 : list Effect) (s : State) :
  appendLog l2 (appendLog l1 s) = appendLog (l1 ++ l2) s.
Proof. unfold appendLog. cbn. rewrite app_assoc. reflexivity. Qed.

Lemma cleanup_appendLog (cfg : Config) (l : list Effect) (s : State) :
  cleanup cfg s = s -> cleanup cfg (appendLog l s) = appendLog l s.
Proof.
  unfold cleanup. destruct (opt_signal (options cfg)); [|reflexivity].
  cbn. destruct (listener s) eqn:L; [|reflexivity].
  intro H. apply (f_equal listener) in H. cbn in H. congruence.
Qed.

Lemma catchRead_reports (cfg : Config) (v : Throwing.Thrown)
  (outs : list Throwing.Outcome) (s : State) :
  reportsAdded cfg s (fst (fst (Throwing.catchRead cfg v outs s))).
Proof.
  unfold reportsAdded, Throwing.catchRead, Throwing.call.
  destruct v as [m|e]; cbn [fst].
  - exists []. rewrite appendLog_nil. split; reflexivity.
  - destruct (fieldIs (name e) (lit "AbortError")); cbn [fst].
    + exists []. rewrite appendLog_nil. split; reflexivity.
    + destruct (onError cfg).
      * destruct (fst (Throwing.next outs));
          exists [EOnError (readFailedMsg e)]; split; reflexivity.
      * exists []. rewrite appendLog_nil. split; reflexivity.
Qed.

Lemma reportsAdded_trans (cfg : Config) (s s1 s2 : State) :
  reportsAdded cfg s s1 -> reportsAdded cfg s1 s2 -> reportsAdded cfg s s2.
Proof.
  intros (l1 & -> & H1) (l2 & -> & H2).
  exists (l1 ++ l2).
  rewrite cleanup_appendLog by apply cleanup_idem.
  rewrite appendLog_app, forallb_app, H1, H2. split; reflexivity.
Qed.

Lemma unwind_reports (cfg : Config) (k : nat) (v : Throwing.Thrown)
  (outs : list Throwing.Outcome) (s : State) :
  reportsAdded cfg s (fst (Throwing.unwind cfg k v outs s)).
Proof.
  revert v outs s. induction k as [|k IH]; intros v outs s; cbn [Throwing.unwind];
    pose proof (catchRead_reports cfg v outs s) as H;
    destruct (Throwing.catchRead cfg v outs s) as [[s1 [w|]] outs'];
    cbn [fst] in *; try exact H.
  exact (reportsAdded_trans cfg s s1 _ H (IH w outs' s1)).
Qed.

Lemma reportsAdded_listener (cfg : Config) (s s' : State) :
  reportsAdded cfg s s' -> listener s' = true -> listener s = true.
Proof.
  intros (l & -> & _). unfold appendLog, cleanup. cbn.
  destruct (opt_signal (options cfg)); destruct (listener s) eqn:L;
    cbn; rewrite ?L; intro H; congruence.
Qed.

Lemma call_eq (passed : bool) (e : Effect) (outs : list Throwing.Outcome)
  (s : State) :
  Throwing.call passed e outs s
  = (emitIf passed e s,
     if passed then fst (Throwing.next outs) else Throwing.Returns,
     if passed then snd (Throwing.next outs) else outs).
Proof. unfold Throwing.call, emitIf. destruct passed; reflexivity. Qed.

Ltac throwing_unfold :=
  unfold Throwing.step, Throwing.catchRequest, Throwing.cancelRequest,
    Throwing.settle, Throwing.setBase;
  rewrite ?call_eq;
  unfold makeRequest, readStreamChunk, cleanup, emitIf.

Ltac throwing_split :=
  repeat match goal with
         | |- context [match phase (Throwing.base ?t) with _ => _ end] =>
             is_var t; destruct (phase (Throwing.base t)) eqn:?;
             cbn; rewrite ?call_eq; cbn
         | |- context [match opt_signal ?o with _ => _ end] =>
             destruct (opt_signal o) eqn:?; cbn; rewrite ?call_eq; cbn
         | |- context [match message ?e with _ => _ end] =>
             destruct (message e) eqn:?; cbn; rewrite ?call_eq; cbn
         | |- context [let '(_, _) := decode ?d ?v in _] =>
             destruct (decode d v); rewrite ?call_eq; cbn
         | |- context [match fst (Throwing.next ?o) with _ => _ end] =>
             destruct (fst (Throwing.next o)) eqn:?; cbn
         | |- context [if ?b then _ else _] =>
             destruct b eqn:?; cbn; rewrite ?call_eq; cbn
         end.

Ltac unwind_facts :=
  repeat match goal with
         | |- context [Throwing.unwind ?c ?k ?v ?o ?s] =>
             let H := fresh "Hu" in
             pose proof (unwind_reports c k v o s) as H;
             destruct (Throwing.unwind c k v o s) as [? ?]; cbn [fst snd] in *
         end.

Lemma step_keeps_listener (cfg : Config) (t : Throwing.Task)
  (h : Throwing.Happening) :
  listener (Throwing.base (Throwing.step cfg t h)) = true ->
  listener (Throwing.base t) = true.
Proof.
  destruct h as [o outs].
  destruct o as [r|[m|e]| |value| |v|b|]; throwing_unfold; cbn [fst snd];
    throwing_split; unwind_facts; cbn;
    try (intro H; first [exact H | discriminate H | congruence]).
  all: intro H; apply (reportsAdded_listener _ _ _ Hu) in H; cbn in H;
    try exact H; congruence.
Qed.

Lemma throwing_run_app (cfg : Config) (t : Throwing.Task)
  (l1 l2 : list Throwing.Happening) :
  Throwing.run cfg t (l1 ++ l2) = Throwing.run cfg (Throwing.run cfg t l1) l2.
Proof. apply fold_left_app. Qed.

Lemma throwing_session_app (cfg : Config) (pre post : list Throwing.Happening) :
  Throwing.session cfg (pre ++ post)
  = Throwing.run cfg (Throwing.session cfg pre) post.
Proof. apply throwing_run_app. Qed.

Lemma throwing_listenerNeedsSignal (cfg : Config)
  (hs : list Throwing.Happening) :
  listenerNeedsSignal cfg (Throwing.base (Throwing.session cfg hs)).
Proof.
  unfold Throwing.session, Throwing.run.
  assert (H0 : listenerNeedsSignal cfg (Throwing.base (Throwing.start cfg)))
    by exact (session_listenerNeedsSignal cfg []).
  revert H0. generalize (Throwing.start cfg).
  induction hs as [|h hs IH]; intros t Ht; [exact Ht|].
  simpl. apply IH. intro Hl. apply Ht.
  exact (step_keeps_listener cfg t h Hl).
Qed.

(** The listener, if held, is removed. *)
Lemma cleanup_removes (cfg : Config) (s : State) :
  listenerNeedsSignal cfg s ->
  cleanup cfg s
  = setListener false
      (appendLog (if listener s then [ERemoveListener] else []) s).
Proof.
  unfold listenerNeedsSignal, cleanup. intro H.
  destruct (listener s) eqn:L.
  - destruct (opt_signal (options cfg)); [reflexivity|].
    exfalso. apply H; reflexivity.
  - rewrite appendLog_nil.
    assert (E : setListener false s = s)
      by (destruct s; cbn in *; subst; reflexivity).
    rewrite E. destruct (opt_signal (options cfg)); reflexivity.
Qed.

(** *** After the end of the task *)

Lemma throwing_step_idle (cfg : Config) (t : Throwing.Task)
  (h : Throwing.Happening) :
  phase (Throwing.base t) = Finished -> listener (Throwing.base t) = false ->
  notCancels h = true ->
  Throwing.step cfg t h = t.
Proof.
  intros Hp Hl Hn. destruct h as [o outs].
  destruct o; try discriminate Hn; unfold Throwing.step; cbn [fst snd];
    rewrite ?Hp; try reflexivity.
  rewrite Hl. destruct t; reflexivity.
Qed.

Lemma throwing_run_idle (cfg : Config) (post : list Throwing.Happening)
  (t : Throwing.Task) :
  phase (Throwing.base t) = Finished -> listener (Throwing.base t) = false ->
  forallb notCancels post = true ->
  Throwing.run cfg t post = t.
Proof.
  intros Hp Hl. induction post as [|h post IH]; intro H; [reflexivity|].
  simpl in H. apply andb_prop in H as [Hh H].
  simpl. rewrite (throwing_step_idle cfg t h Hp Hl Hh). exact (IH H).
Qed.

Lemma throwing_step_ended (cfg : Config) (t : Throwing.Task)
  (h : Throwing.Happening) :
  phase (Throwing.base t) = Finished -> notCancels h = true ->
  phase (Throwing.base (Throwing.step cfg t h)) = Finished
  /\ Throwing.unhandled (Throwing.step cfg t h) = Throwing.unhandled t
  /\ exists l, log (Throwing.base (Throwing.step cfg t h))
               = log (Throwing.base t) ++ l
               /\ forallb isAbort l = true.
Proof.
  intros Hp Hn. destruct h as [o outs].
  destruct o; try discriminate Hn; unfold Throwing.step; cbn [fst snd];
    rewrite ?Hp;
    try (split; [first [exact Hp|reflexivity]|split; [reflexivity|]];
         exists []; rewrite app_nil_r; split; reflexivity).
  destruct (listener (Throwing.base t)); cbn.
  - split; [first [exact Hp|reflexivity]|split; [reflexivity|]].
    exists [EAbort]. split; reflexivity.
  - split; [first [exact Hp|reflexivity]|split; [reflexivity|]].
    exists []. rewrite app_nil_r. split; reflexivity.
Qed.

Lemma throwing_run_ended (cfg : Config) (post : list Throwing.Happening)
  (t : Throwing.Task) :
  phase (Throwing.base t) = Finished -> forallb notCancels post = true ->
  phase (Throwing.base (Throwing.run cfg t post)) = Finished
  /\ Throwing.unhandled (Throwing.run cfg t post) = Throwing.unhandled t
  /\ exists l, log (Throwing.base (Throwing.run cfg t post))
               = log (Throwing.base t) ++ l
               /\ forallb isAbort l = true.
Proof.
  revert t; induction post as [|h post IH]; intros t Hp Hn.
  - split; [exact Hp|split; [reflexivity|]].
    exists []. rewrite app_nil_r. split; reflexivity.
  - simpl in Hn. apply andb_prop in Hn as [Hh Hn]. simpl.
    destruct (throwing_step_ended cfg t h Hp Hh) as (Hp1 & Hu1 & l1 & Hl1 & Ha1).
    destruct (IH _ Hp1 Hn) as (Hp2 & Hu2 & l2 & Hl2 & Ha2).
    split; [exact Hp2|]. split; [congruence|].
    exists (l1 ++ l2).
    rewrite Hl2, Hl1, <- app_assoc, forallb_app, Ha1, Ha2.
    split; reflexivity.
Qed.

(** *** A read that fails *)

Lemma unwind_first_returns (cfg : Config) (k : nat) (e : JsError)
  (outs : list Throwing.Outcome) (s : State) :
  notAbortError e = true -> firstReturns outs = true ->
  Throwing.unwind cfg k (Throwing.Value e) outs s
  = (emitIf (onError cfg) (EOnError (readFailedMsg e)) (cleanup cfg s), None).
Proof.
  unfold notAbortError, firstReturns. intros He Hr.
  apply negb_true_iff in He.
  destruct k; cbn [Throwing.unwind]; unfold Throwing.catchRead;
    rewrite He, call_eq; unfold emitIf;
    destruct (onError cfg); try reflexivity;
    destruct (fst (Throwing.next outs)); try discriminate Hr; reflexivity.
Qed.

(** X12. A read that fails with anything but an [AbortError] ends the
    session, whatever number of retries is left and whatever callbacks threw
    before: the listener, if held, is removed, [onError] gets
    ["Read stream failed: "] followed by the message of the error, and when
    that call returns nothing happens afterwards unless the cancel function
    is called: no request, no timer, no other callback, no unhandled
    rejection. *)
Theorem read_failure_reported_once
  (cfg : Config) (pre post : list Throwing.Happening) (e : JsError)
  (outs : list Throwing.Outcome) (d : decoderState) :
  phase (Throwing.base (Throwing.session cfg pre)) = AwaitRead d ->
  notAbortError e = true ->
  firstReturns outs = true ->
  forallb notCancels post = true ->
  let t := Throwing.session cfg pre in
  let t' := Throwing.session cfg
              (pre ++ (Throwing.ReadRejects (Throwing.Value e), outs) :: post) in
  log (Throwing.base t')
  = log (Throwing.base t)
    ++ (if listener (Throwing.base t) then [ERemoveListener] else [])
    ++ (if onError cfg then [EOnError (readFailedMsg e)] else [])
  /\ phase (Throwing.base t') = Finished
  /\ Throwing.unhandled t' = Throwing.unhandled t.
Proof.
  intros Hp He Hr Hn t t'. subst t'.
  rewrite throwing_session_app. fold t.
  pose proof (throwing_listenerNeedsSignal cfg pre) as Hsig. fold t in Hsig, Hp.
  change (Throwing.run cfg t
            ((Throwing.ReadRejects (Throwing.Value e), outs) :: post))
    with (Throwing.run cfg
            (Throwing.step cfg t (Throwing.ReadRejects (Throwing.Value e), outs))
            post).
  assert (E : Throwing.step cfg t (Throwing.ReadRejects (Throwing.Value e), outs)
              = Throwing.settle t
                  (emitIf (onError cfg) (EOnError (readFailedMsg e))
                     (cleanup cfg (Throwing.base t)), None)).
  { unfold Throwing.step. cbn [fst snd]. rewrite Hp.
    rewrite (unwind_first_returns cfg _ e outs _ He Hr). reflexivity. }
  rewrite E, (cleanup_removes cfg _ Hsig).
  rewrite throwing_run_idle; try exact Hn.
  - unfold Throwing.settle, emitIf. cbn [fst snd Throwing.base Throwing.unhandled].
    rewrite app_nil_r.
    destruct (onError cfg); cbn; rewrite <- ?app_assoc, ?app_nil_r;
      repeat split; reflexivity.
  - reflexivity.
  - unfold Throwing.settle, emitIf. destruct (onError cfg); reflexivity.
Qed.

(** *** The retry loop *)

Lemma establishmentFails_caught (cfg : Config) (h : Throwing.Happening)
  (t : Throwing.Task) :
  phase (Throwing.base t) = AwaitResponse ->
  establishmentFails h = true ->
  Throwing.step cfg t h
  = Throwing.catchRequest cfg (Throwing.Value (thrownIn h)) (snd h) t
  /\ fieldIs (name (thrownIn h)) (lit "CanceledError")
     || fieldIs (code (thrownIn h)) (lit "ERR_CANCELED") = false.
Proof.
  intros Hp Hh. destruct h as [o outs].
  destruct o as [r|[m|e]| | | | | |]; try discriminate Hh;
    unfold Throwing.step, thrownIn; cbn [fst snd]; rewrite Hp;
    unfold establishmentFails in Hh; cbn [fst] in Hh.
  - apply negb_true_iff in Hh. rewrite Hh. split; reflexivity.
  - split; [reflexivity|].
    unfold notCancellation in Hh. apply andb_prop in Hh as [H1 H2].
    apply negb_true_iff in H1, H2. rewrite H1, H2. reflexivity.
Qed.

Lemma throwing_failure_then_timer (cfg : Config) (h : Throwing.Happening)
  (t : Throwing.Task) :
  phase (Throwing.base t) = AwaitResponse ->
  aborted (Throwing.base t) = false ->
  establishmentFails h = true ->
  (attempts (Throwing.base t) < maxRetries cfg)%Z ->
  let t' := Throwing.run cfg t (failedAttempt h) in
  phase (Throwing.base t') = AwaitResponse
  /\ aborted (Throwing.base t') = false
  /\ attempts (Throwing.base t') = (attempts (Throwing.base t) + 1)%Z
  /\ log (Throwing.base t')
     = log (Throwing.base t) ++ [ESetTimeout (retryDelay cfg); EInstance]
  /\ Throwing.unhandled t' = Throwing.unhandled t.
Proof.
  intros Hp Ha Hh Hlt t'. subst t'. apply Z.ltb_lt in Hlt.
  destruct (establishmentFails_caught cfg h t Hp Hh) as [E Hnc].
  unfold failedAttempt, Throwing.run. cbn [fold_left]. rewrite E.
  unfold Throwing.catchRequest. rewrite Hnc, Ha, Hlt. cbn.
  unfold makeRequest. cbn. rewrite Ha. cbn.
  rewrite <- app_assoc. repeat split; try reflexivity. exact Ha.
Qed.

Lemma throwing_failed_rounds (cfg : Config) (fs : list Throwing.Happening)
  (t : Throwing.Task) :
  phase (Throwing.base t) = AwaitResponse ->
  aborted (Throwing.base t) = false ->
  forallb establishmentFails fs = true ->
  (Z.of_nat (List.length fs)
   <= Z.max 0 (maxRetries cfg - attempts (Throwing.base t)))%Z ->
  let t' := Throwing.run cfg t (flat_map failedAttempt fs) in
  phase (Throwing.base t') = AwaitResponse
  /\ aborted (Throwing.base t') = false
  /\ attempts (Throwing.base t')
     = (attempts (Throwing.base t) + Z.of_nat (List.length fs))%Z
  /\ log (Throwing.base t')
     = log (Throwing.base t)
       ++ flat_map (fun _ => [ESetTimeout (retryDelay cfg); EInstance]) fs
  /\ Throwing.unhandled t' = Throwing.unhandled t.
Proof.
  revert t; induction fs as [|f fs IH]; intros t Hp Ha Hfs Hlen.
  - simpl. rewrite app_nil_r, Z.add_0_r. repeat split; assumption.
  - simpl in Hfs. apply andb_prop in Hfs as [Hf Hfs].
    change (flat_map failedAttempt (f :: fs))
      with (failedAttempt f ++ flat_map failedAttempt fs).
    cbv zeta. rewrite throwing_run_app.
    assert (Hlt : (attempts (Throwing.base t) < maxRetries cfg)%Z)
      by (simpl List.length in Hlen; lia).
    destruct (throwing_failure_then_timer cfg f t Hp Ha Hf Hlt)
      as (Hp1 & Ha1 & Hat1 & Hl1 & Hu1).
    destruct (IH _ Hp1 Ha1 Hfs) as (Hp2 & Ha2 & Hat2 & Hl2 & Hu2).
    { rewrite Hat1. simpl List.length in Hlen. lia. }
    repeat split; try assumption.
    + rewrite Hat2, Hat1. simpl List.length. lia.
    + rewrite Hl2, Hl1, <- app_assoc. reflexivity.
    + congruence.
Qed.

(** X14. When every attempt fails to establish the stream (the request is
    rejected with a value that has properties and is not a cancellation, or
    the response has no stream) and the session is not aborted, the request
    is issued [retry + 1] times, with the delay before each retry, and the
    failure of the last attempt is reported: [onError] gets the message of
    its error, or ["Stream request failed"] when the error has no message
    or an empty one, and when that call returns the same goes to the
    console and no rejection is left unhandled. *)
Theorem exhausted_retries_reported_when_onError_returns
  (cfg : Config) (fs : list Throwing.Happening) (f : Throwing.Happening) :
  opt_signal (options cfg) <> Some true ->
  forallb establishmentFails (fs ++ [f]) = true ->
  firstReturns (snd f) = true ->
  List.length fs = Z.to_nat (maxRetries cfg) ->
  let t := Throwing.session cfg (flat_map failedAttempt fs ++ [f]) in
  phase (Throwing.base t) = Finished
  /\ log (Throwing.base t)
     = log (start cfg)
       ++ flat_map (fun _ => [ESetTimeout (retryDelay cfg); EInstance]) fs
       ++ (if onError cfg then [EOnError (reportedMessage (thrownIn f))] else [])
       ++ [EConsoleError (lit "Stream request failed:")]
  /\ Throwing.unhandled t = [].
Proof.
  intros Hs Hfs Hr Hlen t.
  rewrite forallb_app in Hfs. apply andb_prop in Hfs as [Hfs Hf].
  simpl in Hf. rewrite andb_true_r in Hf.
  destruct (start_pending cfg Hs) as (Hp0 & Ha0 & Hat0 & _).
  destruct (throwing_failed_rounds cfg fs (Throwing.start cfg) Hp0 Ha0 Hfs)
    as (Hp1 & Ha1 & Hat1 & Hl1 & Hu1).
  { cbn [Throwing.base Throwing.start]. rewrite Hat0, Hlen. lia. }
  unfold t. rewrite throwing_session_app. unfold Throwing.session.
  set (t1 := Throwing.run cfg (Throwing.start cfg) (flat_map failedAttempt fs)) in *.
  cbn [Throwing.base Throwing.start Throwing.unhandled] in Hat1, Hl1, Hu1.
  assert (Hge : (attempts (Throwing.base t1) <? maxRetries cfg)%Z = false)
    by (apply Z.ltb_ge; rewrite Hat1, Hat0, Hlen; lia).
  destruct (establishmentFails_caught cfg f t1 Hp1 Hf) as [E Hnc].
  change (Throwing.run cfg t1 [f]) with (Throwing.step cfg t1 f).
  rewrite E.
  unfold Throwing.catchRequest. rewrite Hnc, Ha1, Hge, call_eq.
  unfold firstReturns in Hr. unfold emitIf, reportedMessage.
  destruct (onError cfg); cbn.
  - destruct (fst (Throwing.next (snd f))); [|discriminate Hr].
    cbn. rewrite Hl1, Hu1, <- !app_assoc. repeat split; reflexivity.
  - rewrite Hl1, Hu1, <- !app_assoc. repeat split; reflexivity.
Qed.

(** *** Values that are not objects, callbacks that throw *)

(** X19. A request rejected with [null] or [undefined] is not reported and
    not retried, even when retries are left: reading [err.name] throws
    inside the [catch], the task ends with a [TypeError] as an unhandled
    rejection, and unless the cancel function is called no callback is
    called and nothing goes to the console; all that can still be done is
    the [controller.abort()] of the external signal. *)
Theorem nullish_rejection_reports_nothing
  (cfg : Config) (pre post : list Throwing.Happening) (m : jsstring)
  (outs : list Throwing.Outcome) :
  phase (Throwing.base (Throwing.session cfg pre)) = AwaitResponse ->
  forallb notCancels post = true ->
  let t := Throwing.session cfg pre in
  let t' := Throwing.session cfg
              (pre ++ (Throwing.Rejects (Throwing.Nullish m), outs) :: post) in
  (exists l, log (Throwing.base t') = log (Throwing.base t) ++ l
             /\ forallb isAbort l = true)
  /\ phase (Throwing.base t') = Finished
  /\ Throwing.unhandled t'
     = Throwing.unhandled t ++ [Throwing.Value (Throwing.typeError m)].
Proof.
  intros Hp Hn t t'. subst t'. rewrite throwing_session_app. fold t.
  fold t in Hp.
  change (Throwing.run cfg t
            ((Throwing.Rejects (Throwing.Nullish m), outs) :: post))
    with (Throwing.run cfg
            (Throwing.step cfg t (Throwing.Rejects (Throwing.Nullish m), outs))
            post).
  assert (E : Throwing.step cfg t (Throwing.Rejects (Throwing.Nullish m), outs)
              = {| Throwing.base := setPhase Finished (Throwing.base t);
                   Throwing.frames := Throwing.frames t;
                   Throwing.unhandled :=
                     Throwing.unhandled t
                     ++ [Throwing.Value (Throwing.typeError m)] |}).
  { unfold Throwing.step. cbn [fst snd]. rewrite Hp. reflexivity. }
  rewrite E.
  match goal with
  | |- context [Throwing.run cfg ?t1 post] =>
      destruct (throwing_run_ended cfg post t1 eq_refl Hn)
        as (Hp2 & Hu2 & l & Hl & Ha)
  end.
  split; [exists l; split; [exact Hl|exact Ha]|].
  split; [exact Hp2|exact Hu2].
Qed.

(** X20. An exception of [onComplete] or of [onChunk] is taken for a
    failure of the read: the callback was called inside the [try] of
    [readStreamChunk], so when it throws a value that is not named
    [AbortError] the listener, if held, is removed and [onError] gets
    ["Read stream failed: "] followed by the message of the exception,
    after [onComplete] was called for the same stream; after a throwing
    [onChunk] the task has ended and reads no further. *)
Theorem callback_exception_is_reported
  (cfg : Config) (pre : list Throwing.Happening) (e : JsError)
  (outs : list Throwing.Outcome) (d : decoderState) :
  phase (Throwing.base (Throwing.session cfg pre)) = AwaitRead d ->
  notAbortError e = true ->
  firstReturns outs = true ->
  let t := Throwing.session cfg pre in
  let thrown := Throwing.Throws (Throwing.Value e) :: outs in
  let reported :=
    (if listener (Throwing.base t) then [ERemoveListener] else [])
    ++ (if onError cfg then [EOnError (readFailedMsg e)] else []) in
  (onComplete cfg = true ->
   let t' := Throwing.session cfg (pre ++ [(Throwing.ReadEnds, thrown)]) in
   log (Throwing.base t')
   = log (Throwing.base t)
     ++ (if listener (Throwing.base t) then [ERemoveListener] else [])
     ++ [EOnComplete]
     ++ (if onError cfg then [EOnError (readFailedMsg e)] else [])
   /\ phase (Throwing.base t') = Finished
   /\ Throwing.unhandled t' = Throwing.unhandled t)
  /\ (onChunk cfg = true ->
      forall value,
      let t' := Throwing.session cfg
                  (pre ++ [(Throwing.ReadGives value, thrown)]) in
      log (Throwing.base t')
      = log (Throwing.base t) ++ [EOnChunk (snd (decode d value))] ++ reported
      /\ phase (Throwing.base t') = Finished
      /\ Throwing.unhandled t' = Throwing.unhandled t).
Proof.
  intros Hp He Hr t thrown reported.
  pose proof (throwing_listenerNeedsSignal cfg pre) as Hsig.
  fold t in Hp, Hsig. split.
  - intros Hc t'. subst t'. rewrite throwing_session_app. fold t.
    change (Throwing.run cfg t [(Throwing.ReadEnds, thrown)])
      with (Throwing.step cfg t (Throwing.ReadEnds, thrown)).
    unfold Throwing.step. cbn [fst snd]. rewrite Hp, call_eq, Hc.
    unfold thrown. cbn [Throwing.next fst snd emitIf].
    rewrite (unwind_first_returns cfg _ e outs _ He Hr).
    change (emit EOnComplete (cleanup cfg (Throwing.base t)))
      with (appendLog [EOnComplete] (cleanup cfg (Throwing.base t))).
    rewrite cleanup_appendLog by apply cleanup_idem.
    rewrite (cleanup_removes cfg _ Hsig).
    unfold Throwing.settle, emitIf.
    destruct (onError cfg); cbn; rewrite <- ?app_assoc, ?app_nil_r;
      repeat split; reflexivity.
  - intros Hc value t'. subst t'. rewrite throwing_session_app. fold t.
    change (Throwing.run cfg t [(Throwing.ReadGives value, thrown)])
      with (Throwing.step cfg t (Throwing.ReadGives value, thrown)).
    unfold Throwing.step. cbn [fst snd]. rewrite Hp.
    destruct (decode d value) as [d' chunk]. rewrite call_eq, Hc.
    unfold thrown. cbn [Throwing.next fst snd emitIf].
    rewrite (unwind_first_returns cfg _ e outs _ He Hr).
    rewrite (cleanup_removes cfg (emit (EOnChunk chunk) (Throwing.base t)) Hsig).
    unfold Throwing.settle, emitIf, reported.
    destruct (onError cfg); cbn; rewrite <- ?app_assoc, ?app_nil_r;
      repeat split; reflexivity.
Qed.

(** *** A callback that keeps throwing *)

Lemma unwind_rethrown (cfg : Config) (k : nat) (e w : JsError) (s : State) :
  onError cfg = true ->
  notAbortError e = true -> notAbortError w = true ->
  Throwing.unwind cfg k (Throwing.Value e)
    (repeat (Throwing.Throws (Throwing.Value w)) (S k)) s
  = (appendLog (EOnError (readFailedMsg e)
                :: repeat (EOnError (readFailedMsg w)) k) (cleanup cfg s),
     Some (Throwing.Value w)).
Proof.
  intros Ho He Hw. revert e s He.
  induction k as [|k IH]; intros e s He;
    pose proof He as He'; unfold notAbortError in He';
    apply negb_true_iff in He';
    cbn [Throwing.unwind repeat]; unfold Throwing.catchRead;
    rewrite He', call_eq, Ho; cbn [Throwing.next fst snd emitIf].
  - reflexivity.
  - change (Throwing.Throws (Throwing.Value w)
            :: repeat (Throwing.Throws (Throwing.Value w)) k)
      with (repeat (Throwing.Throws (Throwing.Value w)) (S k)).
    rewrite (IH w _ Hw).
    change (emit (EOnError (readFailedMsg e)) (cleanup cfg s))
      with (appendLog [EOnError (readFailedMsg e)] (cleanup cfg s)).
    rewrite cleanup_appendLog by apply cleanup_idem.
    rewrite appendLog_app. reflexivity.
Qed.

Lemma throwing_pump (cfg : Config) (values : list (list Byte.byte))
  (t : Throwing.Task) (d : decoderState) :
  phase (Throwing.base t) = AwaitRead d -> reader (Throwing.base t) = true ->
  let t' := Throwing.run cfg t
              (map (fun v => (Throwing.ReadGives v, [])) values) in
  (exists d', phase (Throwing.base t') = AwaitRead d')
  /\ reader (Throwing.base t') = true
  /\ Throwing.frames t' = Throwing.frames t + List.length values
  /\ Throwing.unhandled t' = Throwing.unhandled t.
Proof.
  revert t d; induction values as [|v values IH]; intros t d Hp Hr t'; subst t'.
  - simpl. rewrite Nat.add_0_r. repeat split; try assumption.
    exists d; exact Hp.
  - change (Throwing.run cfg t
              (map (fun v => (Throwing.ReadGives v, [])) (v :: values)))
      with (Throwing.run cfg (Throwing.step cfg t (Throwing.ReadGives v, []))
              (map (fun v => (Throwing.ReadGives v, [])) values)).
    assert (E : exists d' s1,
               Throwing.step cfg t (Throwing.ReadGives v, [])
               = {| Throwing.base := setPhase (AwaitRead d') s1;
                    Throwing.frames := S (Throwing.frames t);
                    Throwing.unhandled := Throwing.unhandled t |}
               /\ reader s1 = true).
    { unfold Throwing.step. cbn [fst snd]. rewrite Hp.
      destruct (decode d v) as [d' chunk]. rewrite call_eq.
      exists d', (emitIf (onChunk cfg) (EOnChunk chunk) (Throwing.base t)).
      assert (Hr' : reader (emitIf (onChunk cfg) (EOnChunk chunk)
                              (Throwing.base t)) = true)
        by (unfold emitIf; destruct (onChunk cfg); exact Hr).
      split; [|exact Hr'].
      destruct (onChunk cfg); cbn [Throwing.next fst snd];
        unfold readStreamChunk; rewrite Hr'; reflexivity. }
    destruct E as (d' & s1 & E & Hr1). rewrite E.
    match goal with
    | |- context [Throwing.run cfg ?t1 _] =>
        destruct (IH t1 d' eq_refl Hr1) as (Hd & Hr2 & Hf & Hu)
    end.
    cbn [Throwing.frames Throwing.unhandled] in Hf, Hu.
    repeat split; try assumption.
    rewrite Hf. simpl List.length. lia.
Qed.

(** X21. An [onError] that throws is called again by every call of
    [readStreamChunk] that awaits the failed one: after [n] chunks a read
    that fails makes [n + 1] calls of [onError], the first with the message
    of the failed read and the others with the message of what the call
    before threw, and what the last call throws is left as an unhandled
    rejection. *)
Theorem throwing_onError_called_per_chunk
  (cfg : Config) (r : Response) (values : list (list Byte.byte))
  (e w : JsError) :
  opt_signal (options cfg) <> Some true ->
  isStream (readableStream r) = true ->
  onError cfg = true ->
  notAbortError e = true -> notAbortError w = true ->
  let n := List.length values in
  let t := Throwing.session cfg (chunksRead r values) in
  let t' := Throwing.session cfg
              (chunksRead r values
               ++ [(Throwing.ReadRejects (Throwing.Value e),
                    repeat (Throwing.Throws (Throwing.Value w)) (S n))]) in
  log (Throwing.base t')
  = log (Throwing.base t)
    ++ (if listener (Throwing.base t) then [ERemoveListener] else [])
    ++ EOnError (readFailedMsg e) :: repeat (EOnError (readFailedMsg w)) n
  /\ phase (Throwing.base t') = Finished
  /\ Throwing.unhandled t' = [Throwing.Value w].
Proof.
  intros Hs Hst Ho He Hw n t t'. subst t'.
  rewrite throwing_session_app. fold t.
  pose proof (throwing_listenerNeedsSignal cfg (chunksRead r values)) as Hsig.
  fold t in Hsig.
  destruct (start_pending cfg Hs) as (Hp0 & _).
  assert (Ht : (exists d, phase (Throwing.base t) = AwaitRead d)
               /\ Throwing.frames t = n /\ Throwing.unhandled t = []).
  { unfold t, chunksRead, Throwing.session.
    change (Throwing.run cfg (Throwing.start cfg)
              ((Throwing.Fulfils r, [])
               :: map (fun v => (Throwing.ReadGives v, [])) values))
      with (Throwing.run cfg
              (Throwing.step cfg (Throwing.start cfg) (Throwing.Fulfils r, []))
              (map (fun v => (Throwing.ReadGives v, [])) values)).
    assert (E : Throwing.step cfg (Throwing.start cfg) (Throwing.Fulfils r, [])
                = {| Throwing.base :=
                       setPhase (AwaitRead newDecoder)
                         (setReader (emit EGetReader (start cfg)));
                     Throwing.frames := 0; Throwing.unhandled := [] |}).
    { unfold Throwing.step. cbn [fst snd Throwing.base Throwing.start].
      rewrite Hp0, Hst. reflexivity. }
    rewrite E.
    match goal with
    | |- context [Throwing.run cfg ?t1 _] =>
        destruct (throwing_pump cfg values t1 newDecoder eq_refl eq_refl)
          as (Hd & _ & Hf & Hu)
    end.
    split; [exact Hd|]. split; [exact Hf|exact Hu]. }
  destruct Ht as ((d & Hp) & Hf & Hu).
  change (Throwing.run cfg t
            [(Throwing.ReadRejects (Throwing.Value e),
              repeat (Throwing.Throws (Throwing.Value w)) (S n))])
    with (Throwing.step cfg t
            (Throwing.ReadRejects (Throwing.Value e),
             repeat (Throwing.Throws (Throwing.Value w)) (S n))).
  unfold Throwing.step. cbn [fst snd]. rewrite Hp, Hf.
  rewrite (unwind_rethrown cfg n e w _ Ho He Hw).
  rewrite (cleanup_removes cfg _ Hsig).
  unfold Throwing.settle. cbn [fst snd Throwing.base Throwing.unhandled].
  rewrite Hu. cbn. rewrite <- ?app_assoc.
  repeat split; reflexivity.
Qed.

(** *** The cancel function before a stream is obtained *)

Lemma reportsAdded_reader (cfg : Config) (s s' : State) :
  reportsAdded cfg s s' -> reader s' = reader s.
Proof.
  intros (l & -> & _). unfold appendLog, cleanup. cbn.
  destruct (opt_signal (options cfg)); [destruct (listener s)|]; reflexivity.
Qed.

Lemma step_keeps_reader (cfg : Config) (t : Throwing.Task)
  (h : Throwing.Happening) :
  reader (Throwing.base t) = true ->
  reader (Throwing.base (Throwing.step cfg t h)) = true.
Proof.
  intro Hr. destruct h as [o outs].
  destruct o as [r|[m|e]| |value| |v|b|]; throwing_unfold; cbn [fst snd];
    throwing_split; unwind_facts; cbn;
    try first [assumption | reflexivity | congruence];
    match goal with
    | Hu : reportsAdded _ _ _ |- _ =>
        rewrite (reportsAdded_reader _ _ _ Hu); cbn;
        first [assumption | congruence]
    end.
Qed.

Lemma throwing_step_noReaderYet (cfg : Config) (t : Throwing.Task)
  (h : Throwing.Happening) :
  noReaderYet (Throwing.base t) ->
  noReaderYet (Throwing.base (Throwing.step cfg t h)).
Proof.
  unfold noReaderYet. intros H Hr'.
  destruct (reader (Throwing.base t)) eqn:R.
  - rewrite (step_keeps_reader cfg t h R) in Hr'. discriminate Hr'.
  - destruct (H eq_refl) as [Hp Hc]. clear H. unfold notReading in *.
    revert Hr'. destruct h as [o outs].
    destruct o as [r|[m|e]| |value| |v|b|]; unfold Throwing.step; cbn [fst snd];
      destruct (phase (Throwing.base t)) eqn:P; try contradiction;
      try (intros _; rewrite P; split; [exact I|exact Hc]);
      throwing_unfold; cbn; throwing_split; cbn; rewrite ?R, ?P; cbn;
      intro Hr'; try discriminate Hr'; try discriminate P;
      (split; [exact I|]);
      unfold count in *; rewrite ?filter_app, ?length_app; cbn; lia.
Qed.
Lemma throwing_session_noReaderYet (cfg : Config)
  (hs : list Throwing.Happening) :
  noReaderYet (Throwing.base (Throwing.session cfg hs)).
Proof.
  unfold Throwing.session, Throwing.run.
  assert (H0 : noReaderYet (Throwing.base (Throwing.start cfg)))
    by exact (session_noReaderYet cfg []).
  revert H0. generalize (Throwing.start cfg).
  induction hs as [|h hs IH]; intros t Ht; [exact Ht|].
  simpl. apply IH, throwing_step_noReaderYet, Ht.
Qed.

Ltac log_ext :=
  eexists; split;
  [ rewrite <- ?app_assoc; first [reflexivity | symmetry; apply app_nil_r]
  | repeat split ].

Lemma throwing_step_cancelled (cfg : Config) (t : Throwing.Task)
  (h : Throwing.Happening) :
  aborted (Throwing.base t) = true -> reader (Throwing.base t) = false ->
  notReading (Throwing.base t) ->
  quietAfterCancel h = true ->
  (aborted (Throwing.base (Throwing.step cfg t h)) = true
   /\ reader (Throwing.base (Throwing.step cfg t h)) = false
   /\ notReading (Throwing.base (Throwing.step cfg t h)))
  /\ exists l, log (Throwing.base (Throwing.step cfg t h))
               = log (Throwing.base t) ++ l
               /\ silent l = true /\ count isInstance l = 0.
Proof.
  unfold notReading. intros Ha Hr Hp Hq. destruct h as [o outs].
  destruct o as [r|[m|e]| |value| |v|b|]; try discriminate Hq;
    unfold Throwing.step; cbn [fst snd];
    destruct (phase (Throwing.base t)) eqn:P; try contradiction;
    try (rewrite P; split; [repeat split; assumption || exact I
                           |exists []; rewrite app_nil_r; repeat split]);
    throwing_unfold; cbn; rewrite ?Ha, ?orb_true_r; cbn;
    throwing_split; cbn; rewrite ?P; cbn;
    try discriminate P;
    try match goal with
        | E : isStream _ = true |- _ =>
            unfold quietAfterCancel in Hq; cbn in Hq;
            rewrite E in Hq; discriminate Hq
        end;
    (split; [repeat split; assumption || exact I|log_ext]).
Qed.

Lemma throwing_run_cancelled (cfg : Config) (post : list Throwing.Happening)
  (t : Throwing.Task) :
  aborted (Throwing.base t) = true -> reader (Throwing.base t) = false ->
  notReading (Throwing.base t) ->
  forallb quietAfterCancel post = true ->
  exists l, log (Throwing.base (Throwing.run cfg t post))
            = log (Throwing.base t) ++ l
            /\ silent l = true /\ count isInstance l = 0.
Proof.
  revert t; induction post as [|h post IH]; intros t Ha Hr Hp Hpost.
  - exists []. rewrite app_nil_r. repeat split.
  - simpl in Hpost. apply andb_prop in Hpost as [Hh Hpost]. simpl.
    destruct (throwing_step_cancelled cfg t h Ha Hr Hp Hh)
      as ((Ha1 & Hr1 & Hp1) & l1 & Hl1 & Hs1 & Hi1).
    destruct (IH _ Ha1 Hr1 Hp1 Hpost) as (l2 & Hl2 & Hs2 & Hi2).
    exists (l1 ++ l2).
    rewrite Hl2, Hl1, <- app_assoc, count_app, Hi1, Hi2.
    unfold silent in *. rewrite forallb_app, Hs1, Hs2. repeat split.
Qed.

(** X22. The cancel function before a stream is obtained, whatever the
    callbacks throw and whatever the request is rejected with: called while
    no reader has been obtained, it calls [onError] exactly once, with the
    message of the manual cancellation; from then on, as long as no response
    with a stream arrives and it is not called again, no request is issued
    and no callback is called, also when the pending request is rejected
    with [null] or [undefined]. *)
Theorem cancel_before_any_stream_whatever_throws
  (cfg : Config) (pre post : list Throwing.Happening) (b : bool)
  (outs : list Throwing.Outcome) :
  onError cfg = true ->
  reader (Throwing.base (Throwing.session cfg pre)) = false ->
  forallb quietAfterCancel post = true ->
  exists after,
    log (Throwing.base
           (Throwing.session cfg (pre ++ (Throwing.Cancels b, outs) :: post)))
    = log (Throwing.base (Throwing.session cfg pre)) ++ after
    /\ filter isOnError after = [EOnError cancelledMsg]
    /\ count isOnChunk after = 0
    /\ count isOnComplete after = 0
    /\ count isInstance after = 0.
Proof.
  intros He Hr Hpost. rewrite throwing_session_app.
  destruct (throwing_session_noReaderYet cfg pre Hr) as [Hp Hc].
  set (t := Throwing.session cfg pre) in *.
  change (Throwing.run cfg t ((Throwing.Cancels b, outs) :: post))
    with (Throwing.run cfg (Throwing.step cfg t (Throwing.Cancels b, outs)) post).
  set (t1 := Throwing.step cfg t (Throwing.Cancels b, outs)).
  assert (H1 : (aborted (Throwing.base t1) = true
                /\ reader (Throwing.base t1) = false
                /\ notReading (Throwing.base t1))
               /\ exists l, log (Throwing.base t1) = log (Throwing.base t) ++ l
                    /\ filter isOnError l = [EOnError cancelledMsg]
                    /\ count isOnChunk l = 0 /\ count isOnComplete l = 0
                    /\ count isInstance l = 0).
  { unfold t1, Throwing.step. cbn [fst snd].
    unfold Throwing.setBase, Throwing.cancelRequest, notReading in *.
    cbn [Throwing.base]. rewrite call_eq, He.
    unfold cleanup, emitIf.
    destruct (opt_signal (options cfg)); [destruct (listener (Throwing.base t))|];
      cbn; rewrite Hr; cbn;
      destruct (fst (Throwing.next outs)); cbn; rewrite ?Hr;
      (split; [repeat split; assumption|log_ext]). }
  destruct H1 as ((Ha1 & Hr1 & Hp1) & l1 & Hl1 & He1 & Hc1 & Ho1 & Hi1).
  destruct (throwing_run_cancelled cfg post t1 Ha1 Hr1 Hp1 Hpost)
    as (l2 & Hl2 & Hs2 & Hi2).
  destruct (silent_counts l2 Hs2) as (He2 & Hc2 & Ho2).
  exists (l1 ++ l2). rewrite Hl2, Hl1.
  split; [rewrite <- app_assoc; reflexivity|].
  split; [rewrite filter_app, He1, He2; reflexivity|].
  split; [rewrite count_app, Hc1, Hc2; reflexivity|].
  split; [rewrite count_app, Ho1, Ho2; reflexivity|].
  rewrite count_app, Hi1, Hi2; reflexivity.
Qed.
End ThrowingCallbacks.

(** ** Throwing callbacks on sample sessions *)

(** An [onComplete] that throws: [onError] is called as well. *)
Example throwing_onComplete_trace :
  log (Throwing.base
         (@Throwing.session asciiDecoder (withOptions None None)
            [(Throwing.Fulfils streamResponse, []);
             (Throwing.ReadGives [Byte.x68; Byte.x69], []);
             (Throwing.ReadEnds,
              [Throwing.Throws (Throwing.Value callbackError)])]))
  = [EInstance; EGetReader; EOnChunk (lit "hi"); EOnComplete;
     EOnError (lit "Read stream failed: boom")].
Proof. reflexivity. Qed.

(** A read rejected with [null]: at the first read nothing is reported;
    after a chunk the call that awaits reports the [TypeError] of the
    inner [catch]. *)
Example nullish_read_trace :
  log (Throwing.base
         (@Throwing.session asciiDecoder (withOptions None None)
            [(Throwing.Fulfils streamResponse, []);
             (Throwing.ReadRejects (Throwing.Nullish nullMessage), [])]))
  = [EInstance; EGetReader]
  /\ log (Throwing.base
            (@Throwing.session asciiDecoder (withOptions None None)
               [(Throwing.Fulfils streamResponse, []);
                (Throwing.ReadGives [Byte.x68; Byte.x69], []);
                (Throwing.ReadRejects (Throwing.Nullish nullMessage), [])]))
     = [EInstance; EGetReader; EOnChunk (lit "hi");
        EOnError (lit "Read stream failed: " ++ nullMessage)].
Proof. split; reflexivity. Qed.

(** An [onError] that throws in the cancel function and in [makeRequest]:
    the first is logged, the second skips the line of the console. *)
Example throwing_onError_trace :
  log (Throwing.base
         (@Throwing.session asciiDecoder (withOptions None None)
            [(Throwing.Cancels false,
              [Throwing.Throws (Throwing.Value callbackError)])]))
  = [EInstance; EAbort; EOnError cancelledMsg;
     EConsoleError (lit "Failed to cancel stream request:")]
  /\ log (Throwing.base
            (@Throwing.session asciiDecoder (withOptions None None)
               [(Throwing.Rejects (Throwing.Value networkError),
                 [Throwing.Throws (Throwing.Value callbackError)])]))
     = [EInstance; EOnError (lit "Network Error")].
Proof. split; reflexivity. Qed.

Lemma one_ending_when_callbacks_return_witness :
  let s := Throwing.base
             (@Throwing.session asciiDecoder (withOptions None None)
                [(Throwing.Fulfils streamResponse, []);
                 (Throwing.ReadGives [Byte.x68], []);
                 (Throwing.ReadRejects (Throwing.Nullish nullMessage), []);
                 (Throwing.ReadEnds, [])]) in
  count isOnError (log s) + count isOnComplete (log s) <= 1
  /\ (count isOnError (log s) + count isOnComplete (log s) = 1 ->
      phase s = Finished).
Proof.
  exact (@one_ending_when_callbacks_return asciiDecoder (withOptions None None)
           [(Throwing.Fulfils streamResponse, []);
            (Throwing.ReadGives [Byte.x68], []);
            (Throwing.ReadRejects (Throwing.Nullish nullMessage), []);
            (Throwing.ReadEnds, [])] eq_refl eq_refl).
Defined.

Lemma read_failure_reported_once_witness :
  let pre := [(Throwing.Fulfils streamResponse, []);
              (Throwing.ReadGives [Byte.x68], [])] in
  let t := @Throwing.session asciiDecoder (withSignal false) pre in
  let t' := @Throwing.session asciiDecoder (withSignal false)
              (pre ++ (Throwing.ReadRejects (Throwing.Value networkError), [])
                   :: [(Throwing.TimerFires, []);
                       (Throwing.SignalAborts, []);
                       (Throwing.ReadEnds,
                        [Throwing.Throws (Throwing.Value callbackError)])]) in
  log (Throwing.base t')
  = log (Throwing.base t)
    ++ (if listener (Throwing.base t) then [ERemoveListener] else [])
    ++ (if onError (withSignal false)
        then [EOnError (readFailedMsg networkError)] else [])
  /\ phase (Throwing.base t') = Finished
  /\ Throwing.unhandled t' = Throwing.unhandled t.
Proof.
  exact (@read_failure_reported_once asciiDecoder (withSignal false)
           [(Throwing.Fulfils streamResponse, []);
            (Throwing.ReadGives [Byte.x68], [])]
           [(Throwing.TimerFires, []);
            (Throwing.SignalAborts, []);
            (Throwing.ReadEnds,
             [Throwing.Throws (Throwing.Value callbackError)])]
           networkError [] tt eq_refl eq_refl eq_refl eq_refl).
Defined.

Lemma exhausted_retries_reported_when_onError_returns_witness :
  let t := @Throwing.session asciiDecoder (withOptions (Some 1%Z) (Some 200%Z))
             (flat_map failedAttempt [(Throwing.Fulfils bufferedResponse, [])]
              ++ [(Throwing.Rejects (Throwing.Value networkError), [])]) in
  phase (Throwing.base t) = Finished
  /\ log (Throwing.base t)
     = [EInstance; ESetTimeout 200; EInstance;
        EOnError (lit "Network Error");
        EConsoleError (lit "Stream request failed:")]
  /\ Throwing.unhandled t = [].
Proof.
  refine (@exhausted_retries_reported_when_onError_returns asciiDecoder
            (withOptions (Some 1%Z) (Some 200%Z))
            [(Throwing.Fulfils bufferedResponse, [])]
            (Throwing.Rejects (Throwing.Value networkError), [])
            _ eq_refl eq_refl eq_refl).
  discriminate.
Defined.

Lemma nullish_rejection_reports_nothing_witness :
  let t := @Throwing.session asciiDecoder (withOptions (Some 3%Z) None) [] in
  let t' := @Throwing.session asciiDecoder (withOptions (Some 3%Z) None)
              ([] ++ (Throwing.Rejects (Throwing.Nullish nullMessage), [])
                  :: [(Throwing.TimerFires, []);
                      (Throwing.Fulfils streamResponse, [])]) in
  (exists l, log (Throwing.base t') = log (Throwing.base t) ++ l
             /\ forallb isAbort l = true)
  /\ phase (Throwing.base t') = Finished
  /\ Throwing.unhandled t'
     = Throwing.unhandled t
       ++ [Throwing.Value (Throwing.typeError nullMessage)].
Proof.
  exact (@nullish_rejection_reports_nothing asciiDecoder
           (withOptions (Some 3%Z) None) []
           [(Throwing.TimerFires, []); (Throwing.Fulfils streamResponse, [])]
           nullMessage [] eq_refl eq_refl).
Defined.

Lemma callback_exception_is_reported_witness :
  let pre := [(Throwing.Fulfils streamResponse, [])] in
  let t := @Throwing.session asciiDecoder (withOptions None None) pre in
  let thrown := [Throwing.Throws (Throwing.Value callbackError)] in
  log (Throwing.base
         (@Throwing.session asciiDecoder (withOptions None None)
            (pre ++ [(Throwing.ReadEnds, thrown)])))
  = [EInstance; EGetReader; EOnComplete;
     EOnError (lit "Read stream failed: boom")]
  /\ log (Throwing.base
            (@Throwing.session asciiDecoder (withOptions None None)
               (pre ++ [(Throwing.ReadGives [Byte.x68; Byte.x69], thrown)])))
     = [EInstance; EGetReader; EOnChunk (lit "hi");
        EOnError (lit "Read stream failed: boom")].
Proof.
  destruct (@callback_exception_is_reported asciiDecoder
              (withOptions None None)
              [(Throwing.Fulfils streamResponse, [])] callbackError [] tt
              eq_refl eq_refl eq_refl) as [Hc Hk].
  split.
  - exact (proj1 (Hc eq_refl)).
  - exact (proj1 (Hk eq_refl [Byte.x68; Byte.x69])).
Defined.

Lemma throwing_onError_called_per_chunk_witness :
  let hs := chunksRead streamResponse [[Byte.x68]; [Byte.x69]]
            ++ [(Throwing.ReadRejects (Throwing.Value networkError),
                 repeat (Throwing.Throws (Throwing.Value callbackError)) 3)] in
  let t' := @Throwing.session asciiDecoder (withOptions None None) hs in
  log (Throwing.base t')
  = [EInstance; EGetReader; EOnChunk (lit "h"); EOnChunk (lit "i");
     EOnError (lit "Read stream failed: Network Error");
     EOnError (lit "Read stream failed: boom");
     EOnError (lit "Read stream failed: boom")]
  /\ phase (Throwing.base t') = Finished
  /\ Throwing.unhandled t' = [Throwing.Value callbackError].
Proof.
  refine (@throwing_onError_called_per_chunk asciiDecoder
            (withOptions None None) streamResponse [[Byte.x68]; [Byte.x69]]
            networkError callbackError _ eq_refl eq_refl eq_refl eq_refl).
  discriminate.
Defined.

Lemma cancel_before_any_stream_whatever_throws_witness :
  let cfg := withOptions (Some 2%Z) None in
  let pre := [(Throwing.Rejects (Throwing.Value networkError), []);
              (Throwing.TimerFires, [])] in
  let cancel := (Throwing.Cancels false,
                 [Throwing.Throws (Throwing.Value callbackError)]) in
  let post := [(Throwing.Rejects (Throwing.Nullish nullMessage), []);
               (Throwing.TimerFires, []);
               (Throwing.ReadGives [Byte.x68], [])] in
  exists after,
    log (Throwing.base
           (@Throwing.session asciiDecoder cfg (pre ++ cancel :: post)))
    = log (Throwing.base (@Throwing.session asciiDecoder cfg pre)) ++ after
    /\ filter isOnError after = [EOnError cancelledMsg]
    /\ count isOnChunk after = 0
    /\ count isOnComplete after = 0
    /\ count isInstance after = 0.
Proof.
  exact (@cancel_before_any_stream_whatever_throws asciiDecoder
           (withOptions (Some 2%Z) None)
           [(Throwing.Rejects (Throwing.Value networkError), []);
            (Throwing.TimerFires, [])]
           [(Throwing.Rejects (Throwing.Nullish nullMessage), []);
            (Throwing.TimerFires, []);
            (Throwing.ReadGives [Byte.x68], [])]
           false [Throwing.Throws (Throwing.Value callbackError)]
           eq_refl eq_refl eq_refl).
Defined.

(** ** Configuration objects *)

Lemma strEq_eq (a b : jsstring) : strEq a b = true <-> a = b.
Proof.
  unfold strEq. destruct (list_eq_dec N.eq_dec a b); split; congruence.
Qed.

Lemma getProp_setProp (k k' : jsstring) (v : JsValue) (o : JsObject) :
  getProp k (setProp k' v o)
  = if strEq k' k then Some v else getProp k o.
Proof.
  induction o as [|[k1 v1] o IH]; [reflexivity|].
  simpl. destruct (strEq k1 k') eqn:E1.
  - apply strEq_eq in E1. subst k1. simpl.
    destruct (strEq k' k); reflexivity.
  - simpl. rewrite IH.
    destruct (strEq k1 k) eqn:E2; [|reflexivity].
    destruct (strEq k' k) eqn:E3; [|reflexivity].
    apply strEq_eq in E2, E3. subst.
    rewrite (proj2 (strEq_eq k k) eq_refl) in E1. discriminate E1.
Qed.

Lemma getProp_absent (k : jsstring) (o : JsObject) :
  ~ In k (keys o) -> getProp k o = None.
Proof.
  induction o as [|[k1 v1] o IH]; intro H; [reflexivity|].
  simpl. destruct (strEq k1 k) eqn:E.
  - apply strEq_eq in E. exfalso. apply H. left. exact E.
  - apply IH. intro Hin. apply H. right. exact Hin.
Qed.

(** A property of the source wins over one of the target. *)
Lemma getProp_spread (k : jsstring) (source target : JsObject) :
  NoDup (keys source) ->
  getProp k (spread source target)
  = match getProp k source with
    | Some v => Some v
    | None => getProp k target
    end.
Proof.
  revert target; induction source as [|[k1 v1] source IH]; intros target H;
    [reflexivity|].
  inversion H as [|? ? Hnotin Hnodup]; subst.
  change (spread ((k1, v1) :: source) target)
    with (spread source (setProp k1 v1 target)).
  rewrite (IH _ Hnodup), getProp_setProp. simpl.
  destruct (strEq k1 k) eqn:E; [|reflexivity].
  apply strEq_eq in E. subst k1.
  rewrite (getProp_absent k source Hnotin). reflexivity.
Qed.

(** X15. Whatever options the caller passes, the request goes out with
    [isStream: true], [adapter: "fetch"], [responseType: "stream"],
    [timeout: 0] and the signal of the controller's own token; every other
    option of the caller, [retry] and [retryDelay] included, is passed on
    as it is. *)
Theorem request_config_forced (options : JsObject) (k : jsstring) :
  NoDup (keys options) ->
  getProp k (requestConfig options)
  = if strEq (lit "signal") k then Some (VHost (lit "controller.signal"))
    else if strEq (lit "timeout") k then Some (VNumber 0)
    else if strEq (lit "responseType") k then Some (VString (lit "stream"))
    else if strEq (lit "adapter") k then Some (VString (lit "fetch"))
    else if strEq (lit "isStream") k then Some (VBoolean true)
    else getProp k options.
Proof.
  intro H. unfold requestConfig. rewrite !getProp_setProp.
  rewrite (getProp_spread k options [] H).
  destruct (getProp k options); reflexivity.
Qed.

Lemma request_config_forced_witness :
  getProp (lit "timeout")
    (requestConfig [(lit "url", VString (lit "/api/chat"));
                    (lit "timeout", VNumber 5000);
                    (lit "retry", VNumber 3)])
  = Some (VNumber 0).
Proof.
  refine (request_config_forced
            [(lit "url", VString (lit "/api/chat"));
             (lit "timeout", VNumber 5000);
             (lit "retry", VNumber 3)]
            (lit "timeout") _).
  repeat constructor; simpl; intuition discriminate.
Defined.

(** X16. [createInstance] merges shallowly: a key of the caller's config
    wins over the default one, whatever its value, and a key the caller
    does not have keeps its default. So a caller who passes [headers]
    replaces the default headers as a whole (the default [Content-Type] is
    not added to them), and one who passes no [timeout] gets 15000. *)
Theorem final_config_shallow_merge (config : JsObject) (k : jsstring) :
  NoDup (keys config) ->
  getProp k (finalConfig config)
  = match getProp k config with
    | Some v => Some v
    | None => getProp k defaultConfig
    end.
Proof.
  intro H. unfold finalConfig. rewrite (getProp_spread k config _ H).
  destruct (getProp k config); [reflexivity|].
  rewrite getProp_spread; [destruct (getProp k defaultConfig); reflexivity|].
  repeat constructor; simpl; intuition discriminate.
Qed.

Lemma final_config_shallow_merge_witness :
  getProp (lit "headers")
    (finalConfig [(lit "baseURL", VString (lit "https://api.mydomain.com"));
                  (lit "headers",
                   VObject [(lit "Authorization", VString (lit "Bearer token"))])])
  = Some (VObject [(lit "Authorization", VString (lit "Bearer token"))]).
Proof.
  refine (final_config_shallow_merge
            [(lit "baseURL", VString (lit "https://api.mydomain.com"));
             (lit "headers",
              VObject [(lit "Authorization", VString (lit "Bearer token"))])]
            (lit "headers") _).
  repeat constructor; simpl; intuition discriminate.
Defined.
